(** * Temporal degree centrality (overtime/algorithms/centrality/degree.py)

    A shallow embedding of [temporal_degree_centrality] and of the Python
    values it manipulates, followed by the properties of the function.

    Conventions of the embedding:
    - Python [int] is [Z]; the [float] produced by true division is
      idealised as an exact rational [Q] (rounding, overflow and underflow
      of IEEE doubles are outside the model);
    - a [dict] is an association list with pairwise distinct keys kept in
      insertion order, as Python 3.7+ dictionaries iterate;
    - a raised exception is the [Raise] branch of [result];
    - the temporal graph class is not part of this module: its methods are
      the operations of the interface [TemporalGraph]. *)

From Stdlib Require Import ZArith QArith List String Bool Lia Sorted Permutation.
Import ListNotations.
Local Open Scope string_scope.
Local Open Scope list_scope.
Local Open Scope Z_scope.

(** ** Python values *)

(** The exceptions the function can raise. *)
Inductive exn : Type :=
| KeyError (key : string)
| ZeroDivisionError
| UnboundLocalError (name : string)
| AttributeError.

Inductive result (A : Type) : Type :=
| Ok (a : A)
| Raise (e : exn).
Arguments Ok {A} a.
Arguments Raise {A} e.

Definition bind {A B : Type} (r : result A) (k : A -> result B) : result B :=
  match r with
  | Ok a => k a
  | Raise e => Raise e
  end.

Declare Scope result_scope.
Delimit Scope result_scope with result.
Notation "x <- r ;; k" := (bind r (fun x => k))
  (at level 100, r at next level, right associativity) : result_scope.
Local Open Scope result_scope.

(** Truth value of an optional sequence argument: [None], [[]] and [()]
    are false, every other sequence is true. *)
Definition truthy {A : Type} (x : option (list A)) : bool :=
  match x with
  | Some (_ :: _) => true
  | _ => false
  end.

Definition elements {A : Type} (x : option (list A)) : list A :=
  match x with
  | Some l => l
  | None => []
  end.

(** *** Dictionaries *)

Definition dict (V : Type) : Type := list (string * V).

Section Dict.
Context {V : Type}.

(** [d[k]], [None] standing for the missing key. *)
Fixpoint dict_get (d : dict V) (k : string) : option V :=
  match d with
  | [] => None
  | (k', v) :: d' => if String.eqb k' k then Some v else dict_get d' k
  end.

(** [d[k] = v]: an existing key keeps its position, a new key goes last. *)
Fixpoint dict_set (d : dict V) (k : string) (v : V) : dict V :=
  match d with
  | [] => [(k, v)]
  | (k', v') :: d' =>
      if String.eqb k' k then (k', v) :: d' else (k', v') :: dict_set d' k v
  end.

(** Assigning the items to [d], one after the other. *)
Definition extend (d : dict V) (items : list (string * V)) : dict V :=
  fold_left (fun d kv => dict_set d (fst kv) (snd kv)) items d.

(** [{k: v for k, v in items}]. *)
Definition dict_of_items (items : list (string * V)) : dict V :=
  extend [] items.

Definition dict_items (d : dict V) : list (string * V) := d.
Definition dict_keys (d : dict V) : list string := map fst d.
Definition dict_values (d : dict V) : list V := map snd d.
End Dict.

(** [d[k]] as an expression: a missing key raises [KeyError]. *)
Definition getitem {V : Type} (d : dict V) (k : string) : result V :=
  match dict_get d k with
  | Some v => Ok v
  | None => Raise (KeyError k)
  end.

(** [a / b] on integers: [ZeroDivisionError] on a zero divisor, and
    otherwise the exact quotient.  The double that Python returns is this
    quotient rounded, so the properties below say of a score only what
    rounding keeps: which counts and which divisor it comes from, its sign,
    and its place in an order that rounding can collapse but not reverse. *)
Definition truediv (a b : Z) : result Q :=
  if b =? 0 then Raise ZeroDivisionError
  else Ok (inject_Z a / inject_Z b)%Q.

(** *** [sorted(items, key=lambda item: item[1], reverse=True)]

    [sorted] is stable, also with [reverse=True]: the result is in
    non-increasing key order and items with equal keys keep the order of the
    input.  For a total preorder these two properties determine the output,
    so the insertion sort below returns the list Python returns. *)
Fixpoint insert_desc (x : string * Q) (l : list (string * Q)) : list (string * Q) :=
  match l with
  | [] => [x]
  | y :: l' =>
      if Qle_bool (snd y) (snd x) then x :: y :: l' else y :: insert_desc x l'
  end.

Definition sorted_reverse (items : list (string * Q)) : list (string * Q) :=
  fold_right insert_desc [] items.

(** ** The temporal graph interface *)

Record Node : Type := { label : string }.

(** Modelled from the spec: the edge class is not in this module; section 3
    of the specification gives an edge two endpoint nodes and a timestamp. *)
Record Edge : Type := { node1 : Node; node2 : Node; timestamp : Z }.

(** The methods of the graph object that the function calls:
    [graph.get_temporal_subgraph(intervals)], [graph.nodes.labels()],
    [graph.nodes.count()], [graph.edges.aslist()], [graph.edges.start()] and
    [graph.edges.end()].  Their code is outside this module, so they are
    operations of an interface. *)
Class TemporalGraph (G : Type) : Type := {
  get_temporal_subgraph : G -> list (Z * Z) -> G;
  nodes_labels : G -> list string;
  nodes_count : G -> Z;
  edges_aslist : G -> list Edge;
  edges_start : G -> Z;
  edges_end : G -> Z
}.

(** ** The function, on values *)

Section Centrality.
Context {G : Type} `{TemporalGraph G}.

(** Lines 51-53: restrict the graph to the given intervals. *)
Definition restricted (graph : G) (intervals : option (list (Z * Z))) : G :=
  if truthy intervals then get_temporal_subgraph graph (elements intervals)
  else graph.

(** Lines 55-57: the labels to calculate for; [graph] is the graph after
    the restriction. *)
Definition working_labels (graph : G) (labels : option (list string)) : list string :=
  if negb (truthy labels) then nodes_labels graph else elements labels.

(** Line 60: [{label: 0 for label in labels}]. *)
Definition initial_count (labels : list string) : dict Z :=
  dict_of_items (map (fun label => (label, 0)) labels).

(** [node_count[k] += 1]. *)
Definition increment (node_count : dict Z) (k : string) : result (dict Z) :=
  value <- getitem node_count k ;;
  Ok (dict_set node_count k (value + 1)).

(** Lines 63-66: the loop over the edges. *)
Fixpoint count_degrees (edges : list Edge) (node_count : dict Z) : result (dict Z) :=
  match edges with
  | [] => Ok node_count
  | edge :: edges' =>
      node_count <- increment node_count (label (node1 edge)) ;;
      node_count <- increment node_count (label (node2 edge)) ;;
      count_degrees edges' node_count
  end.

(** Lines 51-66: the raw degree counts, [node_count] after the loop. *)
Definition raw_counts (graph : G) (labels : option (list string))
    (intervals : option (list (Z * Z))) : result (dict Z) :=
  let graph := restricted graph intervals in
  let labels := working_labels graph labels in
  count_degrees (edges_aslist graph) (initial_count labels).

(** Line 70. *)
Definition normalization_factor (graph : G) : Z :=
  (nodes_count graph - 1) * (edges_end graph - edges_start graph).

(** Line 71: [{label: value / normalization_factor for label, value in items}];
    the first division that raises ends the comprehension. *)
Fixpoint divide_items (items : list (string * Z)) (factor : Z) (acc : dict Q) : result (dict Q) :=
  match items with
  | [] => Ok acc
  | (label, value) :: items' =>
      quotient <- truediv value factor ;;
      divide_items items' factor (dict_set acc label quotient)
  end.

(** Lines 69-71: [temporal_degree] is bound only when [normalize] holds;
    [None] is the unbound local. *)
Definition apply_normalization (graph : G) (node_count : dict Z) (normalize : bool)
    : result (option (dict Q)) :=
  if normalize then
    temporal_degree <- divide_items (dict_items node_count) (normalization_factor graph) [] ;;
    Ok (Some temporal_degree)
  else Ok None.

(** Lines 74-78: reading the local [temporal_degree], sorting its items
    and building the returned dictionary. *)
Definition sort_by_value (temporal_degree : option (dict Q)) : result (dict Q) :=
  match temporal_degree with
  | None => Raise (UnboundLocalError "temporal_degree")
  | Some temporal_degree => Ok (dict_of_items (sorted_reverse (dict_items temporal_degree)))
  end.

(** [temporal_degree_centrality(graph, labels=None, intervals=None,
    normalize=True)]; a call that leaves out an argument passes its default. *)
Definition temporal_degree_centrality (graph : G) (labels : option (list string))
    (intervals : option (list (Z * Z))) (normalize : bool) : result (dict Q) :=
  let graph := restricted graph intervals in
  let labels := working_labels graph labels in
  node_count <- count_degrees (edges_aslist graph) (initial_count labels) ;;
  temporal_degree <- apply_normalization graph node_count normalize ;;
  sort_by_value temporal_degree.

(** The dictionary [temporal_degree] before the sort, when the function
    gets that far with [normalize] true. *)
Definition normalized_counts (graph : G) (labels : option (list string))
    (intervals : option (list (Z * Z))) : result (dict Q) :=
  node_count <- raw_counts graph labels intervals ;;
  divide_items (dict_items node_count)
    (normalization_factor (restricted graph intervals)) [].
End Centrality.

(** ** The function, in a store of objects

    The same code with its objects in a store, so that what a call mutates
    and what it allocates can be stated.  A reference is a position in the
    store, allocation appends, and an exception leaves the store as it is at
    the point of the raise. *)

Section Store.
Context {G : Type} `{TemporalGraph G}.

Inductive object : Type :=
| GraphObject (g : G)
| CountDict (d : dict Z)
| ScoreDict (d : dict Q).

Definition store : Type := list object.
Definition ref : Type := nat.
Definition action (A : Type) : Type := store -> result A * store.

Definition ret {A : Type} (a : A) : action A := fun s => (Ok a, s).
Definition raise {A : Type} (e : exn) : action A := fun s => (Raise e, s).
Definition lift {A : Type} (r : result A) : action A := fun s => (r, s).

Definition and_then {A B : Type} (m : action A) (k : A -> action B) : action B :=
  fun s =>
    match m s with
    | (Ok a, s') => k a s'
    | (Raise e, s') => (Raise e, s')
    end.

Definition allocate (o : object) : action ref :=
  fun s => (Ok (List.length s), s ++ [o]).

(** [s[r] := o] on an allocated reference. *)
Fixpoint store_update (s : store) (r : ref) (o : object) : store :=
  match s, r with
  | [], _ => []
  | _ :: s', O => o :: s'
  | o' :: s', S r' => o' :: store_update s' r' o
  end.

Definition read_graph (r : ref) : action G :=
  fun s =>
    match nth_error s r with
    | Some (GraphObject g) => (Ok g, s)
    | _ => (Raise AttributeError, s)
    end.

Definition read_counts (r : ref) : action (dict Z) :=
  fun s =>
    match nth_error s r with
    | Some (CountDict d) => (Ok d, s)
    | _ => (Raise AttributeError, s)
    end.

Definition read_scores (r : ref) : action (dict Q) :=
  fun s =>
    match nth_error s r with
    | Some (ScoreDict d) => (Ok d, s)
    | _ => (Raise AttributeError, s)
    end.

Definition write_counts (r : ref) (d : dict Z) : action unit :=
  fun s => (Ok tt, store_update s r (CountDict d)).

Declare Scope action_scope.
Delimit Scope action_scope with action.
Notation "x <- m ;; k" := (and_then m (fun x => k))
  (at level 100, m at next level, right associativity) : action_scope.
Notation "m ;; k" := (and_then m (fun _ => k))
  (at level 100, right associativity) : action_scope.

(** [node_count[k] += 1] on the dictionary object at [node_count]. *)
Definition increment_at (node_count : ref) (k : string) : action unit :=
  (d <- read_counts node_count ;;
   value <- lift (getitem d k) ;;
   write_counts node_count (dict_set d k (value + 1)))%action.

Fixpoint for_each_edge (edges : list Edge) (body : Edge -> action unit) : action unit :=
  match edges with
  | [] => ret tt
  | edge :: edges' => (body edge ;; for_each_edge edges' body)%action
  end.

(** Lines 51-53: [get_temporal_subgraph] returns a new graph object. *)
Definition restrict_in_store (graph : ref) (intervals : option (list (Z * Z))) : action ref :=
  (if truthy intervals then
     g <- read_graph graph ;;
     allocate (GraphObject (get_temporal_subgraph g (elements intervals)))
   else ret graph)%action.

(** Lines 55-57. *)
Definition labels_in_store (graph : ref) (labels : option (list string))
    : action (list string) :=
  (if negb (truthy labels) then g <- read_graph graph ;; ret (nodes_labels g)
   else ret (elements labels))%action.

(** Lines 60-66: [node_count] is a new dictionary object, and the loop
    assigns into it. *)
Definition count_in_store (graph : ref) (labels : list string) : action ref :=
  (node_count <- allocate (CountDict (initial_count labels)) ;;
   edges <- (g <- read_graph graph ;; ret (edges_aslist g)) ;;
   for_each_edge edges (fun edge =>
     increment_at node_count (label (node1 edge)) ;;
     increment_at node_count (label (node2 edge))) ;;
   ret node_count)%action.

(** Lines 69-71: the comprehension is a new dictionary object, bound to
    [temporal_degree] when it completes. *)
Definition normalize_in_store (graph node_count : ref) (normalize : bool)
    : action (option ref) :=
  (if normalize then
     g <- read_graph graph ;;
     items <- read_counts node_count ;;
     d <- lift (divide_items (dict_items items) (normalization_factor g) []) ;;
     temporal_degree <- allocate (ScoreDict d) ;;
     ret (Some temporal_degree)
   else ret None)%action.

(** Lines 74-78: the returned dictionary is a new object. *)
Definition sort_in_store (temporal_degree : option ref) : action ref :=
  match temporal_degree with
  | None => raise (UnboundLocalError "temporal_degree")
  | Some temporal_degree =>
      (d <- read_scores temporal_degree ;;
       allocate (ScoreDict (dict_of_items (sorted_reverse (dict_items d)))))%action
  end.

Definition temporal_degree_centrality_in_store (graph : ref)
    (labels : option (list string)) (intervals : option (list (Z * Z)))
    (normalize : bool) : action ref :=
  (graph <- restrict_in_store graph intervals ;;
   labels <- labels_in_store graph labels ;;
   node_count <- count_in_store graph labels ;;
   temporal_degree <- normalize_in_store graph node_count normalize ;;
   sort_in_store temporal_degree)%action.

(** What the caller of [m] sees: the exception, or the dictionary the
    returned reference points to in the final store. *)
Definition outcome (m : action ref) (s : store) : result (dict Q) :=
  match m s with
  | (Ok r, s') =>
      match nth_error s' r with
      | Some (ScoreDict d) => Ok d
      | _ => Raise AttributeError
      end
  | (Raise e, _) => Raise e
  end.

Definition final_store (m : action ref) (s : store) : store := snd (m s).
End Store.

(** ** Graphs as lists *)

(** Modelled from the spec: the graph class is not in this module.  Section 3
    and section 6 of the specification describe a temporal graph as its node
    labels and its timestamped edges, with the restriction to intervals
    dropping the edges outside every interval; the scenario of section 8
    keeps t=1 and t=2 for the interval (0,3), so an interval is taken
    half-open.  The restriction keeps the node list, and the edge set with no
    edge has start and end 0 (duration zero, section 7). *)
Record ListGraph : Type := { graph_nodes : list string; graph_edges : list Edge }.

Definition within (intervals : list (Z * Z)) (edge : Edge) : bool :=
  existsb (fun iv => (fst iv <=? timestamp edge) && (timestamp edge <? snd iv)) intervals.

Definition first_time (edges : list Edge) : Z :=
  match edges with
  | [] => 0
  | edge :: edges' => fold_left Z.min (map timestamp edges') (timestamp edge)
  end.

Definition last_time (edges : list Edge) : Z :=
  match edges with
  | [] => 0
  | edge :: edges' => fold_left Z.max (map timestamp edges') (timestamp edge)
  end.

#[export] Instance ListGraph_TemporalGraph : TemporalGraph ListGraph := {|
  get_temporal_subgraph g intervals :=
    {| graph_nodes := graph_nodes g;
       graph_edges := filter (within intervals) (graph_edges g) |};
  nodes_labels := graph_nodes;
  nodes_count g := Z.of_nat (List.length (graph_nodes g));
  edges_aslist := graph_edges;
  edges_start g := first_time (graph_edges g);
  edges_end g := last_time (graph_edges g)
|}.

Definition edge (a b : string) (t : Z) : Edge :=
  {| node1 := {| label := a |}; node2 := {| label := b |}; timestamp := t |}.

(** The scenario of section 8 of the specification. *)
Definition scenario : ListGraph :=
  {| graph_nodes := ["A"; "B"; "C"];
     graph_edges := [edge "A" "B" 1; edge "B" "C" 2; edge "A" "C" 3] |}.

Definition empty_graph : ListGraph := {| graph_nodes := []; graph_edges := [] |}.

Definition one_edge : ListGraph :=
  {| graph_nodes := ["A"; "B"]; graph_edges := [edge "A" "B" 1] |}.

(** The scenario graph with its edges listed in the opposite order. *)
Definition scenario_reversed : ListGraph :=
  {| graph_nodes := graph_nodes scenario; graph_edges := rev (graph_edges scenario) |}.

(** ** Vocabulary of the properties *)

Section Vocabulary.
Context {G : Type} `{TemporalGraph G}.

(** Both endpoints of [edge] are keys of the count dictionary. *)
Definition tracked (labels : list string) (edge : Edge) : Prop :=
  In (label (node1 edge)) labels /\ In (label (node2 edge)) labels.

(** Modelled from the spec: the code of [get_temporal_subgraph] is not in
    this module.  Sections 3 and 4.1 of the specification have the
    restriction drop the edges outside every interval and keep the others:
    the restricted graph lists, in order, the edges of the graph that pass a
    test. *)
Definition restricts_by_filtering : Prop :=
  forall (g : G) (intervals : list (Z * Z)),
    exists keep : Edge -> bool,
      edges_aslist (get_temporal_subgraph g intervals) = filter keep (edges_aslist g).

(** Modelled from the spec: the graph class is not in this module.  The
    data-model invariants of sections 3 and 7 of the specification: the node
    count is the number of labels, every edge joins two nodes of the graph,
    and a graph with no edge has duration zero. *)
Definition well_formed (g : G) : Prop :=
  nodes_count g = Z.of_nat (List.length (nodes_labels g))
  /\ Forall (tracked (nodes_labels g)) (edges_aslist g)
  /\ (edges_aslist g = [] -> edges_end g - edges_start g = 0).
End Vocabulary.

(** Number of times [k] is an endpoint of an edge of the list. *)
Fixpoint occurrences (k : string) (edges : list Edge) : Z :=
  match edges with
  | [] => 0
  | e :: edges' =>
      (if String.eqb (label (node1 e)) k then 1 else 0)
      + (if String.eqb (label (node2 e)) k then 1 else 0)
      + occurrences k edges'
  end.

Definition sum (values : list Z) : Z := fold_right Z.add 0 values.

(** The items of [node_count] with every value divided by the factor. *)
Definition quotients (factor : Z) (items : list (string * Z)) : list (string * Q) :=
  map (fun item => (fst item, (inject_Z (snd item) / inject_Z factor)%Q)) items.

(** Non-increasing scores along a list of items. *)
Definition descending (items : list (string * Q)) : Prop :=
  StronglySorted (fun a b => (snd b <= snd a)%Q) items.

(** The items of the list whose score equals [v], in their order. *)
Definition with_score (v : Q) (items : list (string * Q)) : list (string * Q) :=
  filter (fun item => Qeq_bool (snd item) v) items.

(** The first endpoint that is none of the labels, in the order the loop
    of lines 63-66 reads the endpoints: edge by edge, [node1] before [node2]. *)
Fixpoint first_untracked (labels : list string) (edges : list Edge) : option string :=
  match edges with
  | [] => None
  | e :: edges' =>
      if negb (existsb (String.eqb (label (node1 e))) labels) then Some (label (node1 e))
      else if negb (existsb (String.eqb (label (node2 e))) labels) then Some (label (node2 e))
      else first_untracked labels edges'
  end.

(** ** Dictionaries: lookup, update, keys *)

Section DictFacts.
Context {V : Type}.
Implicit Types (d : dict V) (k : string) (v : V).

Lemma dict_get_set_same d k v : dict_get (dict_set d k v) k = Some v.
Proof.
  induction d as [|[k' v'] d IH]; simpl.
  - now rewrite String.eqb_refl.
  - destruct (String.eqb k' k) eqn:E; simpl; rewrite E; auto.
Qed.

Lemma dict_get_set_other d k k' v :
  k <> k' -> dict_get (dict_set d k v) k' = dict_get d k'.
Proof.
  intros Hne. induction d as [|[k0 v0] d IH]; simpl.
  - destruct (String.eqb k k') eqn:E; auto.
    apply String.eqb_eq in E. contradiction.
  - destruct (String.eqb k0 k) eqn:E; simpl.
    + apply String.eqb_eq in E. subst k0.
      destruct (String.eqb k k') eqn:E'; auto.
      apply String.eqb_eq in E'. contradiction.
    + now rewrite IH.
Qed.

Lemma dict_get_In d k : (exists v, dict_get d k = Some v) <-> In k (dict_keys d).
Proof.
  induction d as [|[k' v'] d IH]; simpl.
  - split; [intros [v Hv]; discriminate | tauto].
  - destruct (String.eqb k' k) eqn:E.
    + apply String.eqb_eq in E. split; [auto | eauto].
    + apply String.eqb_neq in E. rewrite IH. tauto.
Qed.

Lemma dict_get_None d k : dict_get d k = None <-> ~ In k (dict_keys d).
Proof.
  rewrite <- dict_get_In. destruct (dict_get d k) as [v|].
  - split; [discriminate | intros Hn; exfalso; eauto].
  - split; [intros _ [v Hv]; discriminate | auto].
Qed.

(** Assigning to a key that is present changes no key and no position. *)
Lemma dict_keys_set_present d k v :
  In k (dict_keys d) -> dict_keys (dict_set d k v) = dict_keys d.
Proof.
  induction d as [|[k' v'] d IH]; simpl; [tauto|].
  intros Hin. destruct (String.eqb k' k) eqn:E; simpl; auto.
  apply String.eqb_neq in E. f_equal. apply IH. tauto.
Qed.

(** Assigning to a new key appends it. *)
Lemma dict_set_absent d k v :
  ~ In k (dict_keys d) -> dict_set d k v = d ++ [(k, v)].
Proof.
  induction d as [|[k' v'] d IH]; simpl; auto.
  intros Hn. destruct (String.eqb k' k) eqn:E.
  - apply String.eqb_eq in E. tauto.
  - f_equal. apply IH. tauto.
Qed.

Lemma dict_keys_set d k v : incl (dict_keys d) (dict_keys (dict_set d k v)).
Proof.
  destruct (in_dec string_dec k (dict_keys d)) as [Hin|Hn].
  - rewrite dict_keys_set_present by assumption. apply incl_refl.
  - rewrite dict_set_absent by assumption. unfold dict_keys.
    rewrite map_app. apply incl_appl, incl_refl.
Qed.

Lemma dict_set_NoDup d k v :
  NoDup (dict_keys d) -> NoDup (dict_keys (dict_set d k v)).
Proof.
  intros Hd. destruct (in_dec string_dec k (dict_keys d)) as [Hin|Hn].
  - now rewrite dict_keys_set_present.
  - rewrite dict_set_absent by assumption. unfold dict_keys in *.
    rewrite map_app. simpl. apply NoDup_app; auto.
    + repeat constructor. simpl. tauto.
    + intros x Hx [Hk|[]]. subst. contradiction.
Qed.

Lemma extend_NoDup items : forall d,
  NoDup (dict_keys d) -> NoDup (dict_keys (extend d items)).
Proof.
  induction items as [|[k v] items IH]; simpl; intros d Hd; auto.
  apply IH, dict_set_NoDup, Hd.
Qed.

(** Items with pairwise distinct new keys are appended as they are. *)
Lemma extend_distinct items : forall d,
  NoDup (dict_keys d ++ map fst items) -> extend d items = d ++ items.
Proof.
  induction items as [|[k v] items IH]; simpl; intros d Hd.
  - now rewrite app_nil_r.
  - assert (Hk : ~ In k (dict_keys d)).
    { intros Hin. apply NoDup_remove_2 in Hd. apply Hd.
      apply in_or_app. now left. }
    rewrite dict_set_absent by assumption.
    rewrite IH.
    + now rewrite <- app_assoc.
    + unfold dict_keys in *. rewrite map_app. simpl.
      now rewrite <- app_assoc.
Qed.

Lemma dict_of_items_NoDup (items : list (string * V)) :
  NoDup (dict_keys (dict_of_items items)).
Proof. apply (extend_NoDup items []). constructor. Qed.

(** The items of a dictionary build the same dictionary. *)
Lemma dict_of_items_distinct (items : list (string * V)) :
  NoDup (map fst items) -> dict_of_items items = items.
Proof. intros Hd. apply (extend_distinct items []). exact Hd. Qed.
End DictFacts.

Section DictContents.
Context {V : Type}.
Implicit Types (d : dict V) (k : string) (v : V) (P : V -> Prop).

Lemma dict_set_values P d k v :
  Forall P (dict_values d) -> P v -> Forall P (dict_values (dict_set d k v)).
Proof.
  intros Hd Hv. induction d as [|[k' v'] d IH]; simpl.
  - repeat constructor. exact Hv.
  - inversion Hd; subst. destruct (String.eqb k' k); simpl; constructor; auto.
Qed.

Lemma extend_values P items : forall d,
  Forall P (dict_values d) -> Forall P (map snd items) ->
  Forall P (dict_values (extend d items)).
Proof.
  induction items as [|[k v] items IH]; simpl; intros d Hd Hi; auto.
  inversion Hi; subst. apply IH; auto. now apply dict_set_values.
Qed.

Lemma extend_keys items : forall d k,
  In k (dict_keys (extend d items)) <-> In k (dict_keys d) \/ In k (map fst items).
Proof.
  induction items as [|[k0 v0] items IH]; simpl; intros d k; [tauto|].
  rewrite IH. split.
  - intros [Hin|Hin]; auto.
    destruct (in_dec string_dec k0 (dict_keys d)) as [Hk|Hk].
    + rewrite dict_keys_set_present in Hin by assumption. auto.
    + rewrite dict_set_absent in Hin by assumption.
      unfold dict_keys in Hin. rewrite map_app in Hin.
      apply in_app_or in Hin. simpl in Hin. tauto.
  - intros [Hin|[Hin|Hin]]; auto.
    + left. now apply dict_keys_set.
    + left. subst k0. apply dict_get_In. exists v0. apply dict_get_set_same.
Qed.
End DictContents.

(** ** The counting pass *)

Lemma initial_count_keys (labels : list string) (k : string) :
  In k (dict_keys (initial_count labels)) <-> In k labels.
Proof.
  unfold initial_count, dict_of_items. rewrite extend_keys.
  rewrite map_map. simpl. rewrite map_id. simpl. tauto.
Qed.

Lemma initial_count_NoDup (labels : list string) :
  NoDup (dict_keys (initial_count labels)).
Proof. apply dict_of_items_NoDup. Qed.

Lemma initial_count_zero (labels : list string) :
  Forall (fun v => v = 0) (dict_values (initial_count labels)).
Proof.
  apply extend_values; [constructor|].
  rewrite map_map. simpl. apply Forall_forall. intros v Hv.
  apply in_map_iff in Hv. now destruct Hv as [l [Hl _]].
Qed.

Lemma dict_get_value {V : Type} (P : V -> Prop) (d : dict V) (k : string) (v : V) :
  Forall P (dict_values d) -> dict_get d k = Some v -> P v.
Proof.
  induction d as [|[k' v'] d IH]; simpl; intros Hd Hg; [discriminate|].
  inversion Hd; subst. destruct (String.eqb k' k); auto. now inversion Hg; subst.
Qed.

Lemma initial_count_get (labels : list string) (k : string) :
  In k labels -> dict_get (initial_count labels) k = Some 0.
Proof.
  intros Hin. apply initial_count_keys, dict_get_In in Hin.
  destruct Hin as [v Hv]. rewrite Hv. f_equal.
  exact (dict_get_value _ _ _ _ (initial_count_zero labels) Hv).
Qed.

Lemma sum_zero (values : list Z) : Forall (fun v => v = 0) values -> sum values = 0.
Proof. induction 1; simpl; lia. Qed.

Lemma sum_dict_set (d : dict Z) (k : string) (v v' : Z) :
  dict_get d k = Some v ->
  sum (dict_values (dict_set d k v')) = sum (dict_values d) - v + v'.
Proof.
  induction d as [|[k0 v0] d IH]; simpl; [discriminate|].
  destruct (String.eqb k0 k); simpl.
  - intros [= ->]. lia.
  - intros Hg. rewrite IH by assumption. lia.
Qed.

(** [node_count[k] += 1] on a tracked key, and on an untracked one. *)
Lemma increment_tracked (d : dict Z) (k : string) (v : Z) :
  dict_get d k = Some v -> increment d k = Ok (dict_set d k (v + 1)).
Proof. intros Hg. unfold increment, getitem. now rewrite Hg. Qed.

Lemma increment_untracked (d : dict Z) (k : string) :
  ~ In k (dict_keys d) -> increment d k = Raise (KeyError k).
Proof.
  intros Hn. apply dict_get_None in Hn. unfold increment, getitem. now rewrite Hn.
Qed.

Lemma increment_inv (d d' : dict Z) (k : string) :
  increment d k = Ok d' ->
  exists v, dict_get d k = Some v /\ d' = dict_set d k (v + 1).
Proof.
  unfold increment, getitem. destruct (dict_get d k) as [v|]; simpl; [|discriminate].
  intros [= <-]. eauto.
Qed.

Lemma increment_keys (d d' : dict Z) (k : string) :
  increment d k = Ok d' -> dict_keys d' = dict_keys d.
Proof.
  intros Hi. destruct (increment_inv _ _ _ Hi) as [v [Hg ->]].
  apply dict_keys_set_present, dict_get_In. eauto.
Qed.

Lemma increment_get (d d' : dict Z) (k k' : string) (v : Z) :
  increment d k = Ok d' -> dict_get d k' = Some v ->
  dict_get d' k' = Some (v + (if String.eqb k k' then 1 else 0)).
Proof.
  intros Hi Hg. destruct (increment_inv _ _ _ Hi) as [v0 [Hg0 ->]].
  destruct (String.eqb k k') eqn:E.
  - apply String.eqb_eq in E. subst k'. rewrite dict_get_set_same. congruence.
  - apply String.eqb_neq in E. rewrite dict_get_set_other by assumption.
    rewrite Hg. f_equal. lia.
Qed.

Lemma increment_sum (d d' : dict Z) (k : string) :
  increment d k = Ok d' -> sum (dict_values d') = sum (dict_values d) + 1.
Proof.
  intros Hi. destruct (increment_inv _ _ _ Hi) as [v [Hg ->]].
  rewrite (sum_dict_set _ _ _ _ Hg). lia.
Qed.

(** The loop keeps the keys and their order. *)
Lemma count_degrees_keys (edges : list Edge) : forall d d' : dict Z,
  count_degrees edges d = Ok d' -> dict_keys d' = dict_keys d.
Proof.
  induction edges as [|e edges IH]; simpl; intros d d' Hc.
  - now inversion Hc.
  - destruct (increment d (label (node1 e))) as [d1|] eqn:E1; simpl in Hc; [|discriminate].
    destruct (increment d1 (label (node2 e))) as [d2|] eqn:E2; simpl in Hc; [|discriminate].
    rewrite (IH _ _ Hc), (increment_keys _ _ _ E2). exact (increment_keys _ _ _ E1).
Qed.

(** After the loop a key holds its initial value plus the number of times
    it is an endpoint of an edge. *)
Lemma count_degrees_get (edges : list Edge) : forall (d d' : dict Z) (k : string) (v : Z),
  count_degrees edges d = Ok d' -> dict_get d k = Some v ->
  dict_get d' k = Some (v + occurrences k edges).
Proof.
  induction edges as [|e edges IH]; simpl; intros d d' k v Hc Hg.
  - inversion Hc; subst. rewrite Hg. f_equal. lia.
  - destruct (increment d (label (node1 e))) as [d1|] eqn:E1; simpl in Hc; [|discriminate].
    destruct (increment d1 (label (node2 e))) as [d2|] eqn:E2; simpl in Hc; [|discriminate].
    pose proof (increment_get _ _ _ k v E1 Hg) as H1.
    pose proof (increment_get _ _ _ k _ E2 H1) as H2.
    rewrite (IH _ _ k _ Hc H2). f_equal. lia.
Qed.

(** Every completed iteration adds two to the total. *)
Lemma count_degrees_sum (edges : list Edge) : forall d d' : dict Z,
  count_degrees edges d = Ok d' ->
  sum (dict_values d') = sum (dict_values d) + 2 * Z.of_nat (List.length edges).
Proof.
  induction edges as [|e edges IH]; intros d d' Hc.
  - simpl in Hc. inversion Hc; subst. simpl. lia.
  - cbn [count_degrees] in Hc.
    destruct (increment d (label (node1 e))) as [d1|] eqn:E1; simpl in Hc; [|discriminate].
    destruct (increment d1 (label (node2 e))) as [d2|] eqn:E2; simpl in Hc; [|discriminate].
    rewrite (IH _ _ Hc), (increment_sum _ _ _ E2), (increment_sum _ _ _ E1).
    cbn [List.length]. lia.
Qed.

(** The loop completes exactly when every endpoint is a key. *)
Lemma count_degrees_tracked (edges : list Edge) : forall d : dict Z,
  Forall (tracked (dict_keys d)) edges -> exists d', count_degrees edges d = Ok d'.
Proof.
  induction edges as [|e edges IH]; simpl; intros d Ht; [eauto|].
  inversion Ht as [|? ? [H1 H2] Hrest]; subst.
  apply dict_get_In in H1. destruct H1 as [v1 Hv1].
  rewrite (increment_tracked _ _ _ Hv1). simpl.
  assert (Hk : dict_keys (dict_set d (label (node1 e)) (v1 + 1)) = dict_keys d).
  { apply dict_keys_set_present, dict_get_In. eauto. }
  rewrite <- Hk in H2. apply dict_get_In in H2. destruct H2 as [v2 Hv2].
  rewrite (increment_tracked _ _ _ Hv2). simpl.
  apply IH. rewrite dict_keys_set_present, Hk; auto.
  apply dict_get_In. eauto.
Qed.

Lemma count_degrees_inv (edges : list Edge) : forall d d' : dict Z,
  count_degrees edges d = Ok d' -> Forall (tracked (dict_keys d)) edges.
Proof.
  induction edges as [|e edges IH]; simpl; intros d d' Hc; [constructor|].
  destruct (increment d (label (node1 e))) as [d1|] eqn:E1; simpl in Hc; [|discriminate].
  destruct (increment d1 (label (node2 e))) as [d2|] eqn:E2; simpl in Hc; [|discriminate].
  pose proof (increment_keys _ _ _ E1) as K1.
  pose proof (increment_keys _ _ _ E2) as K2.
  destruct (increment_inv _ _ _ E1) as [v1 [G1 _]].
  destruct (increment_inv _ _ _ E2) as [v2 [G2 _]].
  constructor.
  - split.
    + apply dict_get_In. eauto.
    + rewrite <- K1. apply dict_get_In. eauto.
  - rewrite <- K1, <- K2. exact (IH _ _ Hc).
Qed.

(** An endpoint that is no key stops the loop with [KeyError]. *)
Lemma count_degrees_untracked (edges : list Edge) : forall d : dict Z,
  ~ Forall (tracked (dict_keys d)) edges ->
  exists k, ~ In k (dict_keys d) /\ count_degrees edges d = Raise (KeyError k).
Proof.
  induction edges as [|e edges IH]; simpl; intros d Hn.
  - exfalso. apply Hn. constructor.
  - destruct (in_dec string_dec (label (node1 e)) (dict_keys d)) as [H1|H1].
    2:{ exists (label (node1 e)). split; auto.
        now rewrite (increment_untracked _ _ H1). }
    apply dict_get_In in H1. destruct H1 as [v1 Hv1].
    rewrite (increment_tracked _ _ _ Hv1). simpl.
    assert (Hk : dict_keys (dict_set d (label (node1 e)) (v1 + 1)) = dict_keys d).
    { apply dict_keys_set_present, dict_get_In. eauto. }
    destruct (in_dec string_dec (label (node2 e)) (dict_keys d)) as [H2|H2].
    2:{ exists (label (node2 e)). split; auto.
        rewrite increment_untracked; auto. now rewrite Hk. }
    pose proof H2 as H2'. rewrite <- Hk in H2'.
    apply dict_get_In in H2'. destruct H2' as [v2 Hv2].
    rewrite (increment_tracked _ _ _ Hv2). simpl.
    set (d2 := dict_set _ (label (node2 e)) _).
    assert (Hk2 : dict_keys d2 = dict_keys d).
    { unfold d2. rewrite dict_keys_set_present, Hk; auto.
      apply dict_get_In. eauto. }
    destruct (IH d2) as [k [Hk' Hc]].
    + rewrite Hk2. intros Hf. apply Hn. constructor; auto. split; auto.
      apply dict_get_In. eauto.
    + exists k. split; auto. now rewrite <- Hk2.
Qed.

Lemma occurrences_nonneg (k : string) (edges : list Edge) : 0 <= occurrences k edges.
Proof.
  induction edges as [|e edges IH]; simpl; [lia|].
  destruct (String.eqb (label (node1 e)) k), (String.eqb (label (node2 e)) k); lia.
Qed.

Lemma occurrences_filter (k : string) (keep : Edge -> bool) (edges : list Edge) :
  occurrences k (filter keep edges) <= occurrences k edges.
Proof.
  induction edges as [|e edges IH]; simpl; [lia|].
  destruct (keep e); simpl;
    destruct (String.eqb (label (node1 e)) k), (String.eqb (label (node2 e)) k); lia.
Qed.

(** ** Normalization *)

Lemma quotients_keys (factor : Z) (items : list (string * Z)) :
  map fst (quotients factor items) = map fst items.
Proof. unfold quotients. rewrite map_map. reflexivity. Qed.

Lemma truediv_nonzero (a b : Z) :
  b <> 0 -> truediv a b = Ok (inject_Z a / inject_Z b)%Q.
Proof. intros Hb. unfold truediv. apply Z.eqb_neq in Hb. now rewrite Hb. Qed.

Lemma truediv_zero (a : Z) : truediv a 0 = Raise ZeroDivisionError.
Proof. reflexivity. Qed.

Lemma divide_items_nonzero (factor : Z) (items : list (string * Z)) :
  factor <> 0 ->
  forall acc, divide_items items factor acc = Ok (extend acc (quotients factor items)).
Proof.
  intros Hf. induction items as [|[k v] items IH]; intros acc; simpl; auto.
  rewrite truediv_nonzero by assumption. simpl. apply IH.
Qed.

Lemma divide_items_zero (items : list (string * Z)) (acc : dict Q) :
  items <> [] -> divide_items items 0 acc = Raise ZeroDivisionError.
Proof. destruct items as [|[k v] items]; [congruence | reflexivity]. Qed.

(** A completed comprehension divided every value by a non-zero factor,
    unless there was nothing to divide. *)
Lemma divide_items_inv (factor : Z) (items : list (string * Z)) (d : dict Q) :
  NoDup (map fst items) ->
  divide_items items factor [] = Ok d ->
  d = quotients factor items /\ (items = [] \/ factor <> 0).
Proof.
  intros Hd Hq. destruct (Z.eq_dec factor 0) as [->|Hf].
  - destruct items as [|item items].
    + simpl in Hq. inversion Hq. auto.
    + rewrite divide_items_zero in Hq by discriminate. discriminate.
  - rewrite divide_items_nonzero in Hq by assumption. inversion Hq; subst.
    split; auto. apply extend_distinct. simpl. now rewrite quotients_keys.
Qed.

(** ** The sort *)

Lemma insert_desc_perm (x : string * Q) (l : list (string * Q)) :
  Permutation (insert_desc x l) (x :: l).
Proof.
  induction l as [|y l IH]; simpl; auto.
  destruct (Qle_bool (snd y) (snd x)); auto.
  rewrite IH. apply perm_swap.
Qed.

Lemma sorted_reverse_perm (l : list (string * Q)) : Permutation (sorted_reverse l) l.
Proof.
  induction l as [|x l IH]; simpl; auto.
  rewrite insert_desc_perm. now constructor.
Qed.

Lemma insert_desc_descending (x : string * Q) (l : list (string * Q)) :
  descending l -> descending (insert_desc x l).
Proof.
  unfold descending. induction l as [|y l IH]; simpl; intros Hs.
  - repeat constructor.
  - inversion Hs as [|? ? Hl Hy]; subst.
    destruct (Qle_bool (snd y) (snd x)) eqn:E.
    + apply Qle_bool_iff in E. constructor; auto. constructor; auto.
      eapply Forall_impl; [|exact Hy]. intros b Hb. simpl in Hb.
      eapply Qle_trans; eassumption.
    + constructor; auto.
      eapply Permutation_Forall.
      * symmetry. apply insert_desc_perm.
      * constructor; auto. simpl.
        destruct (Qlt_le_dec (snd x) (snd y)) as [Hlt|Hle].
        -- now apply Qlt_le_weak.
        -- apply Qle_bool_iff in Hle. congruence.
Qed.

Lemma sorted_reverse_descending (l : list (string * Q)) : descending (sorted_reverse l).
Proof.
  induction l as [|x l IH]; simpl.
  - constructor.
  - now apply insert_desc_descending.
Qed.

(** An item moves only past items of strictly greater score, so the items
    of one score keep their order. *)
Lemma insert_desc_with_score (v : Q) (x : string * Q) (l : list (string * Q)) :
  with_score v (insert_desc x l) = with_score v (x :: l).
Proof.
  induction l as [|y l IH]; simpl; auto.
  destruct (Qle_bool (snd y) (snd x)) eqn:E; auto.
  simpl. rewrite IH. simpl.
  destruct (Qeq_bool (snd x) v) eqn:Ex, (Qeq_bool (snd y) v) eqn:Ey; auto.
  apply Qeq_bool_iff in Ex, Ey.
  assert (Hle : (snd y <= snd x)%Q) by (rewrite Ex, Ey; apply Qle_refl).
  apply Qle_bool_iff in Hle. congruence.
Qed.

Lemma sorted_reverse_with_score (v : Q) (l : list (string * Q)) :
  with_score v (sorted_reverse l) = with_score v l.
Proof.
  induction l as [|x l IH]; simpl; auto.
  rewrite insert_desc_with_score. simpl. now rewrite IH.
Qed.

Lemma sorted_reverse_keys (l : list (string * Q)) :
  NoDup (map fst l) -> NoDup (map fst (sorted_reverse l)).
Proof.
  intros Hd. eapply Permutation_NoDup; [|exact Hd].
  apply Permutation_map. symmetry. apply sorted_reverse_perm.
Qed.


Lemma dict_get_Some_In {V : Type} (d : dict V) (k : string) (v : V) :
  NoDup (dict_keys d) -> (dict_get d k = Some v <-> In (k, v) d).
Proof.
  induction d as [|[k' v'] d IH]; simpl; intros Hd.
  - split; [discriminate | tauto].
  - inversion Hd as [|? ? Hk Hd']; subst.
    destruct (String.eqb k' k) eqn:E.
    + apply String.eqb_eq in E. subst k'. split.
      * intros [= ->]. auto.
      * intros [[= ->]|Hin]; auto.
        exfalso. apply Hk. apply (in_map fst) in Hin. exact Hin.
    + apply String.eqb_neq in E. rewrite (IH Hd'). split; auto.
      intros [[= -> _]|Hin]; [contradiction | auto].
Qed.

(** Lookup does not depend on the order of the items. *)
Lemma dict_get_perm {V : Type} (d d' : dict V) (k : string) :
  NoDup (dict_keys d) -> Permutation d d' -> dict_get d k = dict_get d' k.
Proof.
  intros Hd Hp.
  assert (Hd' : NoDup (dict_keys d')).
  { eapply Permutation_NoDup; [|exact Hd]. now apply Permutation_map. }
  destruct (dict_get d k) as [v|] eqn:E.
  - symmetry. apply (dict_get_Some_In _ _ _ Hd').
    eapply Permutation_in; [exact Hp|]. now apply (dict_get_Some_In _ _ _ Hd).
  - destruct (dict_get d' k) as [v'|] eqn:E'; auto.
    apply (dict_get_Some_In _ _ _ Hd') in E'.
    apply (Permutation_in _ (Permutation_sym Hp)) in E'.
    apply (dict_get_Some_In _ _ _ Hd) in E'. congruence.
Qed.

Lemma quotients_get (factor : Z) (d : dict Z) (k : string) :
  dict_get (quotients factor d) k
  = option_map (fun c => (inject_Z c / inject_Z factor)%Q) (dict_get d k).
Proof.
  induction d as [|[k' v'] d IH]; simpl; auto.
  destruct (String.eqb k' k); auto.
Qed.

(** ** The function: how a call ends *)

Section Outcome.
Context {G : Type} `{TemporalGraph G}.
Implicit Types (g : G) (labels : option (list string)) (intervals : option (list (Z * Z))).

(** The function is the counting pass followed by the normalization and
    the sort, both on the restricted graph. *)
Lemma centrality_stages g labels intervals (normalize : bool) :
  temporal_degree_centrality g labels intervals normalize
  = (node_count <- raw_counts g labels intervals ;;
     temporal_degree <- apply_normalization (restricted g intervals) node_count normalize ;;
     sort_by_value temporal_degree).
Proof. reflexivity. Qed.

Lemma raw_counts_keys g labels intervals (d : dict Z) :
  raw_counts g labels intervals = Ok d ->
  dict_keys d = dict_keys (initial_count (working_labels (restricted g intervals) labels)).
Proof. apply count_degrees_keys. Qed.

Lemma raw_counts_NoDup g labels intervals (d : dict Z) :
  raw_counts g labels intervals = Ok d -> NoDup (dict_keys d).
Proof.
  intros Hr. rewrite (raw_counts_keys _ _ _ _ Hr). apply initial_count_NoDup.
Qed.

(** A count that the pass produced is the number of edge endpoints of the
    restricted graph that carry the label. *)
Lemma raw_counts_get g labels intervals (d : dict Z) (k : string) (c : Z) :
  raw_counts g labels intervals = Ok d -> dict_get d k = Some c ->
  c = occurrences k (edges_aslist (restricted g intervals)).
Proof.
  intros Hr Hg.
  assert (Hin : In k (dict_keys d)) by (apply dict_get_In; eauto).
  rewrite (raw_counts_keys _ _ _ _ Hr) in Hin.
  apply (proj1 (initial_count_keys _ _)) in Hin.
  apply initial_count_get in Hin.
  pose proof (count_degrees_get _ _ _ _ _ Hr Hin) as Hc.
  rewrite Hg in Hc. now inversion Hc.
Qed.

(** A lookup miss in the counting pass ends the call. *)
Lemma raw_counts_raise g labels intervals (normalize : bool) (e : exn) :
  raw_counts g labels intervals = Raise e ->
  temporal_degree_centrality g labels intervals normalize = Raise e.
Proof. intros Hr. rewrite centrality_stages, Hr. reflexivity. Qed.

(** Without normalization the local [temporal_degree] is never bound, and
    the read on line 74 raises. *)
Lemma unnormalized_raises g labels intervals (d : dict Z) :
  raw_counts g labels intervals = Ok d ->
  temporal_degree_centrality g labels intervals false
  = Raise (UnboundLocalError "temporal_degree").
Proof. intros Hr. rewrite centrality_stages, Hr. reflexivity. Qed.

Lemma unnormalized_never_returns g labels intervals (r : dict Q) :
  temporal_degree_centrality g labels intervals false <> Ok r.
Proof.
  destruct (raw_counts g labels intervals) as [d|e] eqn:Hr.
  - rewrite (unnormalized_raises _ _ _ _ Hr). discriminate.
  - rewrite (raw_counts_raise _ _ _ _ _ Hr). discriminate.
Qed.

(** A call that returns went through every stage: the counts were
    produced, divided by the factor of the restricted graph, and sorted. *)
Lemma centrality_returns g labels intervals (normalize : bool) (r : dict Q) :
  temporal_degree_centrality g labels intervals normalize = Ok r ->
  exists d : dict Z,
    normalize = true
    /\ raw_counts g labels intervals = Ok d
    /\ (d = [] \/ normalization_factor (restricted g intervals) <> 0)
    /\ normalized_counts g labels intervals
       = Ok (quotients (normalization_factor (restricted g intervals)) d)
    /\ r = sorted_reverse (quotients (normalization_factor (restricted g intervals)) d).
Proof.
  intros Hc. destruct normalize.
  2:{ exfalso. exact (unnormalized_never_returns _ _ _ _ Hc). }
  rewrite centrality_stages in Hc. unfold normalized_counts.
  destruct (raw_counts g labels intervals) as [d|e] eqn:Hr; simpl in Hc; [|discriminate].
  pose proof (raw_counts_NoDup _ _ _ _ Hr) as Hd.
  destruct (divide_items (dict_items d) (normalization_factor (restricted g intervals)) [])
    as [q|e] eqn:Hq; simpl in Hc; [|discriminate].
  destruct (divide_items_inv _ _ _ Hd Hq) as [-> Hf].
  exists d. repeat split; auto.
  inversion Hc. unfold dict_items. apply dict_of_items_distinct.
  apply sorted_reverse_keys. now rewrite quotients_keys.
Qed.

Lemma centrality_descending g labels intervals (normalize : bool) (r : dict Q) :
  temporal_degree_centrality g labels intervals normalize = Ok r -> descending r.
Proof.
  intros Hc. destruct (centrality_returns _ _ _ _ _ Hc) as [d [_ [_ [_ [_ ->]]]]].
  apply sorted_reverse_descending.
Qed.
End Outcome.

(** ** The function in a store: what a call reads, writes and allocates *)

Section StoreFacts.
Context {G : Type} `{TemporalGraph G}.
Implicit Types (s ext : @store G) (o : @object G) (r : ref).

Lemma nth_error_last s o : nth_error (s ++ [o]) (List.length s) = Some o.
Proof. rewrite nth_error_app2, Nat.sub_diag; auto. Qed.

Lemma nth_error_kept s ext r o :
  nth_error s r = Some o -> nth_error (s ++ ext) r = Some o.
Proof.
  intros Hr. rewrite nth_error_app1; auto.
  apply nth_error_Some. congruence.
Qed.

Lemma store_update_last s o o' :
  store_update (s ++ [o]) (List.length s) o' = s ++ [o'].
Proof. induction s as [|o0 s IH]; simpl; [reflexivity | now rewrite IH]. Qed.

Lemma read_graph_at s r (g : G) :
  nth_error s r = Some (GraphObject g) -> read_graph r s = (Ok g, s).
Proof. intros Hr. unfold read_graph. now rewrite Hr. Qed.

(** A reference that holds no graph: the method call raises. *)
Lemma read_graph_miss s r :
  (forall g : G, nth_error s r <> Some (GraphObject g)) ->
  read_graph r s = (Raise AttributeError, s).
Proof.
  intros Hr. unfold read_graph.
  destruct (nth_error s r) as [[g|d|d]|] eqn:E; auto.
  exfalso. exact (Hr g eq_refl).
Qed.

(** [node_count[k] += 1] on the object allocated last. *)
Lemma increment_at_last s (d : dict Z) (k : string) :
  increment_at (List.length s) k (s ++ [CountDict d])
  = match increment d k with
    | Ok d1 => (Ok tt, s ++ [CountDict d1])
    | Raise e => (Raise e, s ++ [CountDict d])
    end.
Proof.
  unfold increment_at, and_then, read_counts, lift, write_counts, increment, getitem.
  rewrite nth_error_last.
  destruct (dict_get d k) as [v|]; simpl; auto.
  now rewrite store_update_last.
Qed.

(** The loop on the object allocated last: it ends as [count_degrees] does
    and touches that object only. *)
Lemma for_each_edge_last (edges : list Edge) : forall s (d : dict Z),
  exists d1 : dict Z,
    for_each_edge edges (fun edge =>
      and_then (increment_at (List.length s) (label (node1 edge)))
        (fun _ => increment_at (List.length s) (label (node2 edge))))
      (s ++ [CountDict d])
    = (match count_degrees edges d with Ok _ => Ok tt | Raise e => Raise e end,
       s ++ [CountDict d1])
    /\ (forall d', count_degrees edges d = Ok d' -> d1 = d').
Proof.
  induction edges as [|e edges IH]; intros s d.
  - exists d. split; [reflexivity|]. simpl. now intros d' [= <-].
  - cbn [for_each_edge count_degrees]. unfold and_then at 1 2.
    rewrite increment_at_last.
    destruct (increment d (label (node1 e))) as [d1|e1]; simpl.
    2:{ exists d. split; [reflexivity | discriminate]. }
    rewrite increment_at_last.
    destruct (increment d1 (label (node2 e))) as [d2|e2]; simpl.
    2:{ exists d1. split; [reflexivity | discriminate]. }
    destruct (IH s d2) as [d3 [Hrun Hd3]].
    exists d3. split; auto.
Qed.

Lemma restrict_in_store_run s r (g : G) (intervals : option (list (Z * Z))) :
  nth_error s r = Some (GraphObject g) ->
  exists r' ext,
    restrict_in_store r intervals s = (Ok r', s ++ ext)
    /\ nth_error (s ++ ext) r' = Some (GraphObject (restricted g intervals)).
Proof.
  intros Hr. unfold restrict_in_store, restricted.
  destruct (truthy intervals).
  - unfold and_then. rewrite (read_graph_at _ _ _ Hr). unfold allocate.
    exists (List.length s), [GraphObject (get_temporal_subgraph g (elements intervals))].
    split; [reflexivity | apply nth_error_last].
  - exists r, []. unfold ret. rewrite app_nil_r. auto.
Qed.

Lemma labels_in_store_run s r (g : G) (labels : option (list string)) :
  nth_error s r = Some (GraphObject g) ->
  labels_in_store r labels s = (Ok (working_labels g labels), s).
Proof.
  intros Hr. unfold labels_in_store, working_labels.
  destruct (negb (truthy labels)); [|reflexivity].
  unfold and_then. now rewrite (read_graph_at _ _ _ Hr).
Qed.

Lemma count_in_store_run s r (g : G) (labels : list string) :
  nth_error s r = Some (GraphObject g) ->
  exists d1 : dict Z,
    count_in_store r labels s
    = (match count_degrees (edges_aslist g) (initial_count labels) with
       | Ok _ => Ok (List.length s)
       | Raise e => Raise e
       end, s ++ [CountDict d1])
    /\ (forall d', count_degrees (edges_aslist g) (initial_count labels) = Ok d' -> d1 = d').
Proof.
  intros Hr. unfold count_in_store.
  unfold and_then at 1. unfold allocate at 1.
  unfold and_then at 1. unfold and_then at 1.
  rewrite (read_graph_at _ _ _ (nth_error_kept _ _ _ _ Hr)). unfold ret at 1.
  unfold and_then at 1.
  destruct (for_each_edge_last (edges_aslist g) s (initial_count labels)) as [d1 [Hrun Hd1]].
  rewrite Hrun. exists d1. split; auto.
  destruct (count_degrees (edges_aslist g) (initial_count labels)); reflexivity.
Qed.

Lemma normalize_in_store_run s r rc (g : G) (d : dict Z) (normalize : bool) :
  nth_error s r = Some (GraphObject g) ->
  nth_error s rc = Some (CountDict d) ->
  normalize_in_store r rc normalize s
  = match apply_normalization g d normalize with
    | Ok (Some q) => (Ok (@Some ref (List.length s)), s ++ [ScoreDict q])
    | Ok None => (Ok None, s)
    | Raise e => (Raise e, s)
    end.
Proof.
  intros Hr Hc. unfold normalize_in_store, apply_normalization.
  destruct normalize; [|reflexivity].
  unfold and_then at 1. rewrite (read_graph_at _ _ _ Hr).
  unfold and_then at 1. unfold read_counts. rewrite Hc.
  unfold and_then at 1. unfold lift.
  destruct (divide_items (dict_items d) (normalization_factor g) []); reflexivity.
Qed.

Lemma sort_in_store_run s r (q : dict Q) :
  nth_error s r = Some (ScoreDict q) ->
  sort_in_store (Some r) s
  = (Ok (List.length s), s ++ [ScoreDict (dict_of_items (sorted_reverse (dict_items q)))]).
Proof.
  intros Hr. unfold sort_in_store, and_then, read_scores. now rewrite Hr.
Qed.

(** The store after a call is the store before it followed by the objects
    the call allocated; the call ends as the function on values does, and a
    returned reference is one of the new objects. *)
Lemma in_store_refines s r (g : G) (labels : option (list string))
    (intervals : option (list (Z * Z))) (normalize : bool) :
  nth_error s r = Some (GraphObject g) ->
  exists ext res,
    temporal_degree_centrality_in_store r labels intervals normalize s = (res, s ++ ext)
    /\ match temporal_degree_centrality g labels intervals normalize with
       | Ok d =>
           exists r',
             res = Ok r' /\ (List.length s <= r')%nat
             /\ nth_error (s ++ ext) r' = Some (ScoreDict d)
       | Raise e => res = Raise e
       end.
Proof.
  intros Hr. unfold temporal_degree_centrality_in_store.
  destruct (restrict_in_store_run s r g intervals Hr) as [r1 [ext1 [Hrun1 Hg1]]].
  unfold and_then at 1. rewrite Hrun1.
  unfold and_then at 1. rewrite (labels_in_store_run _ _ _ labels Hg1).
  set (wl := working_labels (restricted g intervals) labels).
  destruct (count_in_store_run (s ++ ext1) r1 _ wl Hg1) as [d1 [Hrun3 Hd1]].
  unfold and_then at 1. rewrite Hrun3.
  rewrite centrality_stages. unfold raw_counts. fold wl.
  destruct (count_degrees (edges_aslist (restricted g intervals)) (initial_count wl))
    as [d|e] eqn:Hc; simpl bind.
  2:{ exists (ext1 ++ [CountDict d1]), (Raise e). rewrite app_assoc. auto. }
  rewrite (Hd1 d eq_refl).
  set (s2 := (s ++ ext1) ++ [CountDict d]).
  assert (Hs2 : s2 = s ++ ext1 ++ [CountDict d]).
  { unfold s2. now rewrite app_assoc. }
  assert (Hg2 : nth_error s2 r1 = Some (GraphObject (restricted g intervals))).
  { apply nth_error_kept, Hg1. }
  assert (Hc2 : nth_error s2 (List.length (s ++ ext1)) = Some (CountDict d)).
  { apply nth_error_last. }
  unfold and_then at 1. rewrite (normalize_in_store_run _ _ _ _ _ normalize Hg2 Hc2).
  destruct (apply_normalization (restricted g intervals) d normalize) as [[q|]|e]; simpl bind.
  - rewrite (sort_in_store_run _ _ q (nth_error_last s2 _)).
    set (sorted := ScoreDict (dict_of_items (sorted_reverse (dict_items q)))).
    assert (Hs : (s2 ++ [ScoreDict q]) ++ [sorted]
                 = s ++ ext1 ++ [CountDict d] ++ [ScoreDict q] ++ [sorted]).
    { rewrite Hs2. now rewrite <- !app_assoc. }
    exists (ext1 ++ [CountDict d] ++ [ScoreDict q] ++ [sorted]),
           (Ok (List.length (s2 ++ [ScoreDict q]))).
    split; [now rewrite Hs|].
    exists (List.length (s2 ++ [ScoreDict q])). split; [reflexivity|]. split.
    + rewrite Hs2, !length_app. lia.
    + rewrite <- Hs. apply nth_error_last.
  - exists (ext1 ++ [CountDict d]), (Raise (UnboundLocalError "temporal_degree")).
    rewrite <- Hs2. auto.
  - exists (ext1 ++ [CountDict d]), (Raise e). rewrite <- Hs2. auto.
Qed.

Lemma no_graph_kept s r (d : dict Z) :
  (forall g : G, nth_error s r <> Some (GraphObject g)) ->
  forall g : G, nth_error (s ++ [CountDict d]) r <> Some (GraphObject g).
Proof.
  intros Hr g Hg. destruct (Nat.lt_ge_cases r (List.length s)) as [Hlt|Hge].
  - rewrite nth_error_app1 in Hg by assumption. exact (Hr g Hg).
  - rewrite nth_error_app2 in Hg by assumption.
    destruct (r - List.length s)%nat as [|[|n]]; simpl in Hg; discriminate.
Qed.

(** A reference that holds no graph: the first method call raises. *)
Lemma in_store_no_graph s r (labels : option (list string))
    (intervals : option (list (Z * Z))) (normalize : bool) :
  (forall g : G, nth_error s r <> Some (GraphObject g)) ->
  exists ext,
    temporal_degree_centrality_in_store r labels intervals normalize s
    = (Raise AttributeError, s ++ ext).
Proof.
  intros Hr. unfold temporal_degree_centrality_in_store, restrict_in_store.
  destruct (truthy intervals).
  - exists []. rewrite app_nil_r. unfold and_then.
    now rewrite (read_graph_miss _ _ Hr).
  - unfold and_then at 1. unfold ret at 1. unfold labels_in_store.
    destruct (negb (truthy labels)).
    + exists []. rewrite app_nil_r. unfold and_then.
      now rewrite (read_graph_miss _ _ Hr).
    + unfold and_then at 1. unfold ret at 1. unfold count_in_store.
      eexists. unfold and_then, allocate.
      rewrite (read_graph_miss _ _ (no_graph_kept _ _ _ Hr)). reflexivity.
Qed.

(** What the caller sees of a call is the result of the function on values. *)
Lemma outcome_in_store s r (g : G) (labels : option (list string))
    (intervals : option (list (Z * Z))) (normalize : bool) :
  nth_error s r = Some (GraphObject g) ->
  outcome (temporal_degree_centrality_in_store r labels intervals normalize) s
  = temporal_degree_centrality g labels intervals normalize.
Proof.
  intros Hr.
  destruct (in_store_refines s r g labels intervals normalize Hr) as [ext [res [Hrun Hres]]].
  unfold outcome. rewrite Hrun.
  destruct (temporal_degree_centrality g labels intervals normalize) as [d|e].
  - destruct Hres as [r' [-> [_ Hd]]]. now rewrite Hd.
  - now rewrite Hres.
Qed.
End StoreFacts.

(** ** Graphs as lists: the contract of the interface *)

Lemma ListGraph_restricts_by_filtering : @restricts_by_filtering ListGraph _.
Proof. intros g intervals. exists (within intervals). reflexivity. Qed.

Lemma scenario_well_formed : well_formed scenario.
Proof.
  unfold well_formed, tracked. simpl. repeat split; try discriminate.
  repeat constructor; simpl; tauto.
Qed.

(** ** Properties of [temporal_degree_centrality] *)

Section Properties.
Context {G : Type} `{TemporalGraph G}.
Implicit Types (g : G) (labels : option (list string)) (intervals : option (list (Z * Z))).

(** An endpoint outside the working label set ends the call with
    [KeyError], whatever [normalize] is. *)
Lemma lookup_miss_raises g labels intervals (normalize : bool) :
  ~ Forall (tracked (working_labels (restricted g intervals) labels))
      (edges_aslist (restricted g intervals)) ->
  exists k,
    ~ In k (working_labels (restricted g intervals) labels)
    /\ temporal_degree_centrality g labels intervals normalize = Raise (KeyError k).
Proof.
  intros Hn.
  destruct (count_degrees_untracked (edges_aslist (restricted g intervals))
              (initial_count (working_labels (restricted g intervals) labels)))
    as [k [Hk Hc]].
  - intros Hf. apply Hn. eapply Forall_impl; [|exact Hf].
    intros e [H1 H2]. split; now apply initial_count_keys.
  - exists k. split.
    + intros Hin. apply Hk. now apply initial_count_keys.
    + now apply raw_counts_raise.
Qed.

Lemma raw_counts_tracked g labels intervals :
  Forall (tracked (working_labels (restricted g intervals) labels))
    (edges_aslist (restricted g intervals)) ->
  exists d : dict Z, raw_counts g labels intervals = Ok d.
Proof.
  intros Ht. apply count_degrees_tracked.
  eapply Forall_impl; [|exact Ht].
  intros e [H1 H2]. split; now apply initial_count_keys.
Qed.

(** C3, as the code has it: with [normalize] true, on a well-formed
    (possibly restricted) graph whose node count is at most 1 or whose
    duration is 0, a call with a non-empty working label set that covers
    every edge endpoint raises [ZeroDivisionError]. *)
Theorem zero_factor_raises g labels intervals :
  well_formed (restricted g intervals) ->
  nodes_count (restricted g intervals) <= 1
  \/ edges_end (restricted g intervals) - edges_start (restricted g intervals) = 0 ->
  working_labels (restricted g intervals) labels <> [] ->
  Forall (tracked (working_labels (restricted g intervals) labels))
    (edges_aslist (restricted g intervals)) ->
  temporal_degree_centrality g labels intervals true = Raise ZeroDivisionError.
Proof.
  intros [Hcount [Hnodes Hspan]] Hzero Hlabels Ht.
  assert (Hf : normalization_factor (restricted g intervals) = 0).
  { unfold normalization_factor. destruct Hzero as [Hle|Hd]; [|rewrite Hd; lia].
    destruct (nodes_labels (restricted g intervals)) as [|l ls] eqn:El.
    - destruct (edges_aslist (restricted g intervals)) as [|e es] eqn:Ee.
      + rewrite (Hspan eq_refl). lia.
      + inversion Hnodes as [|? ? [[] _] _].
    - simpl List.length in Hcount. rewrite Nat2Z.inj_succ in Hcount.
      replace (nodes_count (restricted g intervals)) with 1 by lia. lia. }
  destruct (raw_counts_tracked _ _ _ Ht) as [d Hr].
  rewrite centrality_stages, Hr. simpl. rewrite Hf.
  rewrite divide_items_zero; [reflexivity|].
  unfold dict_items. intros ->.
  pose proof (raw_counts_keys _ _ _ _ Hr) as Hk. simpl in Hk.
  destruct (working_labels (restricted g intervals) labels) as [|l ls]; [congruence|].
  assert (Hin : In l (dict_keys (initial_count (l :: ls)))).
  { apply initial_count_keys. now left. }
  rewrite <- Hk in Hin. exact Hin.
Qed.

(** C4: when every edge of the (possibly restricted) graph has both
    endpoints in the working label set, the counting pass completes and the
    raw counts add up to twice the number of edges of that graph. *)
Theorem degree_conservation g labels intervals :
  Forall (tracked (working_labels (restricted g intervals) labels))
    (edges_aslist (restricted g intervals)) ->
  exists d : dict Z,
    raw_counts g labels intervals = Ok d
    /\ sum (dict_values d)
       = 2 * Z.of_nat (List.length (edges_aslist (restricted g intervals))).
Proof.
  intros Ht. destruct (raw_counts_tracked _ _ _ Ht) as [d Hr].
  exists d. split; auto.
  rewrite (count_degrees_sum _ _ _ Hr).
  rewrite (sum_zero _ (initial_count_zero _)). lia.
Qed.

(** C5: a returned mapping is in non-increasing order of score, and for
    every score the labels that have it come in the order they have in
    [temporal_degree], the mapping before the sort. *)
Theorem result_sorted_stable g labels intervals (normalize : bool) (r : dict Q) :
  temporal_degree_centrality g labels intervals normalize = Ok r ->
  descending r
  /\ exists pre : dict Q,
       normalized_counts g labels intervals = Ok pre
       /\ Permutation r pre
       /\ forall v : Q, with_score v r = with_score v pre.
Proof.
  intros Hc. split; [exact (centrality_descending _ _ _ _ _ Hc)|].
  destruct (centrality_returns _ _ _ _ _ Hc) as [d [_ [_ [_ [Hpre ->]]]]].
  eexists. split; [exact Hpre|]. split.
  - apply sorted_reverse_perm.
  - intros v. apply sorted_reverse_with_score.
Qed.

(** C6: when the restricted graph keeps a selection of the edges of the
    graph, a label's raw count on the restricted graph is at most its raw
    count on the unrestricted graph. *)
Theorem restriction_never_increases g labels intervals (k : string)
    (restricted_counts unrestricted_counts : dict Z) (c_restricted c_unrestricted : Z) :
  restricts_by_filtering ->
  raw_counts g labels intervals = Ok restricted_counts ->
  raw_counts g labels None = Ok unrestricted_counts ->
  dict_get restricted_counts k = Some c_restricted ->
  dict_get unrestricted_counts k = Some c_unrestricted ->
  c_restricted <= c_unrestricted.
Proof.
  intros Hfilter Hr Hu Hgr Hgu.
  rewrite (raw_counts_get _ _ _ _ _ _ Hr Hgr), (raw_counts_get _ _ _ _ _ _ Hu Hgu).
  unfold restricted. simpl. destruct (truthy intervals); [|lia].
  destruct (Hfilter g (elements intervals)) as [keep ->].
  apply occurrences_filter.
Qed.

(** C7: with [normalize] true, a returned score is the label's raw count
    divided by (node count - 1) * (end - start), all three read from the
    restricted graph; the returned mapping has a score for exactly the
    labels that have a raw count. *)
Theorem normalized_scores g labels intervals (r : dict Q) :
  temporal_degree_centrality g labels intervals true = Ok r ->
  exists d : dict Z,
    raw_counts g labels intervals = Ok d
    /\ forall k : string,
         dict_get r k
         = option_map
             (fun c : Z =>
                (inject_Z c
                 / inject_Z ((nodes_count (restricted g intervals) - 1)
                             * (edges_end (restricted g intervals)
                                - edges_start (restricted g intervals))))%Q)
             (dict_get d k).
Proof.
  intros Hc. destruct (centrality_returns _ _ _ _ _ Hc) as [d [_ [Hr [_ [_ ->]]]]].
  exists d. split; auto. intros k.
  rewrite <- (quotients_get _ d k). symmetry. apply dict_get_perm.
  - unfold dict_keys. rewrite quotients_keys. exact (raw_counts_NoDup _ _ _ _ Hr).
  - symmetry. apply sorted_reverse_perm.
Qed.

(** C9: a call changes no object of the store it starts in, the input
    graph among them, whether it returns or raises; a returned reference is
    a new object, and it holds the complete sorted mapping. *)
Theorem call_frame (s : @store G) (r : ref) labels intervals (normalize : bool) :
  (forall r0 o, nth_error s r0 = Some o ->
     nth_error (final_store (temporal_degree_centrality_in_store r labels intervals normalize) s) r0
     = Some o)
  /\ (forall r',
        fst (temporal_degree_centrality_in_store r labels intervals normalize s) = Ok r' ->
        (List.length s <= r')%nat
        /\ exists (g : G) (d : dict Q),
             nth_error s r = Some (GraphObject g)
             /\ nth_error
                  (final_store (temporal_degree_centrality_in_store r labels intervals normalize) s)
                  r' = Some (ScoreDict d)
             /\ temporal_degree_centrality g labels intervals normalize = Ok d
             /\ descending d).
Proof.
  unfold final_store.
  destruct (nth_error s r) as [[g|d0|d0]|] eqn:Hr.
  1:{ destruct (in_store_refines s r g labels intervals normalize Hr) as [ext [res [Hrun Hres]]].
      rewrite Hrun. simpl. split.
      - intros r0 o Ho. now apply nth_error_kept.
      - intros r' ->.
        destruct (temporal_degree_centrality g labels intervals normalize) as [d|e] eqn:Hc;
          [|discriminate].
        destruct Hres as [r1 [[= <-] [Hfresh Hd]]]. split; auto.
        exists g, d. repeat split; auto.
        exact (centrality_descending _ _ _ _ _ Hc). }
  all: destruct (in_store_no_graph s r labels intervals normalize) as [ext Hrun];
    [intros g Hg; congruence|];
    rewrite Hrun; simpl; split;
    [intros r0 o Ho; now apply nth_error_kept | intros r' Hr'; discriminate].
Qed.

(** C10: an empty list of labels is treated as omitted labels: the working
    label set is then every node label of the (possibly restricted) graph,
    and the call ends as the call without labels does, on values and in
    every store. *)
Theorem empty_labels_as_omitted g intervals (normalize : bool) (s : @store G) (r : ref) :
  working_labels (restricted g intervals) (Some []) = nodes_labels (restricted g intervals)
  /\ temporal_degree_centrality g (Some []) intervals normalize
     = temporal_degree_centrality g None intervals normalize
  /\ temporal_degree_centrality_in_store r (Some []) intervals normalize s
     = temporal_degree_centrality_in_store r None intervals normalize s.
Proof.
  split; [|split].
  - unfold working_labels. reflexivity.
  - unfold temporal_degree_centrality, working_labels. reflexivity.
  - unfold temporal_degree_centrality_in_store, labels_in_store. reflexivity.
Qed.
End Properties.

(** ** The scenario of the specification and other concrete calls *)

(** C1: on the scenario graph restricted to (0,3) the counting pass leaves
    A:1, B:2, C:1 in [node_count], but with [normalize] false the call does
    not return them: it raises [UnboundLocalError] on line 74. *)
Theorem scenario_unnormalized_raises :
  raw_counts scenario None (Some [(0, 3)]) = Ok [("A", 1); ("B", 2); ("C", 1)]
  /\ temporal_degree_centrality scenario None (Some [(0, 3)]) false
     = Raise (UnboundLocalError "temporal_degree").
Proof. split; reflexivity. Qed.

(** C2: with labels ["A"] on the graph whose only edge joins A and B, the
    untracked endpoint B raises [KeyError]; the call returns no count for A. *)
Theorem untracked_endpoint_raises :
  temporal_degree_centrality one_edge (Some ["A"]) None true = Raise (KeyError "B")
  /\ temporal_degree_centrality one_edge (Some ["A"]) None false = Raise (KeyError "B").
Proof. split; reflexivity. Qed.

(** C3 fails on the graph with no node and no edge: the node count is 0,
    the duration is 0, and the call returns the empty mapping. *)
Lemma empty_graph_returns :
  nodes_count (restricted empty_graph None) <= 1
  /\ edges_end (restricted empty_graph None) - edges_start (restricted empty_graph None) = 0
  /\ edges_aslist (restricted empty_graph None) = []
  /\ temporal_degree_centrality empty_graph None None true = Ok []
  /\ ~ (exists e, temporal_degree_centrality empty_graph None None true = Raise e).
Proof.
  repeat split; try reflexivity.
  - simpl. lia.
  - intros [e He]. discriminate He.
Qed.

Lemma zero_factor_raises_witness :
  well_formed (restricted scenario (Some [(10, 20)]))
  /\ (nodes_count (restricted scenario (Some [(10, 20)])) <= 1
      \/ edges_end (restricted scenario (Some [(10, 20)]))
         - edges_start (restricted scenario (Some [(10, 20)])) = 0)
  /\ working_labels (restricted scenario (Some [(10, 20)])) None <> []
  /\ Forall (tracked (working_labels (restricted scenario (Some [(10, 20)])) None))
       (edges_aslist (restricted scenario (Some [(10, 20)])))
  /\ temporal_degree_centrality scenario None (Some [(10, 20)]) true
     = Raise ZeroDivisionError.
Proof.
  assert (H1 : well_formed (restricted scenario (Some [(10, 20)]))).
  { unfold well_formed. simpl. repeat split. constructor. }
  assert (H2 : nodes_count (restricted scenario (Some [(10, 20)])) <= 1
               \/ edges_end (restricted scenario (Some [(10, 20)]))
                  - edges_start (restricted scenario (Some [(10, 20)])) = 0).
  { right. reflexivity. }
  assert (H3 : working_labels (restricted scenario (Some [(10, 20)])) None <> []).
  { simpl. discriminate. }
  assert (H4 : Forall (tracked (working_labels (restricted scenario (Some [(10, 20)])) None))
                 (edges_aslist (restricted scenario (Some [(10, 20)])))).
  { simpl. constructor. }
  exact (conj H1 (conj H2 (conj H3 (conj H4
           (zero_factor_raises scenario None (Some [(10, 20)]) H1 H2 H3 H4))))).
Defined.

Lemma degree_conservation_witness :
  Forall (tracked (working_labels (restricted scenario (Some [(0, 3)])) None))
    (edges_aslist (restricted scenario (Some [(0, 3)])))
  /\ exists d : dict Z,
       raw_counts scenario None (Some [(0, 3)]) = Ok d
       /\ sum (dict_values d)
          = 2 * Z.of_nat (List.length (edges_aslist (restricted scenario (Some [(0, 3)])))).
Proof.
  assert (H1 : Forall (tracked (working_labels (restricted scenario (Some [(0, 3)])) None))
                 (edges_aslist (restricted scenario (Some [(0, 3)])))).
  { simpl. repeat constructor; simpl; tauto. }
  exact (conj H1 (degree_conservation scenario None (Some [(0, 3)]) H1)).
Defined.

Lemma result_sorted_stable_witness :
  temporal_degree_centrality scenario None (Some [(0, 3)]) true
  = Ok [("B", 2 # 2); ("A", 1 # 2); ("C", 1 # 2)]
  /\ descending [("B", 2 # 2); ("A", 1 # 2); ("C", 1 # 2)]
  /\ exists pre : dict Q,
       normalized_counts scenario None (Some [(0, 3)]) = Ok pre
       /\ Permutation [("B", 2 # 2); ("A", 1 # 2); ("C", 1 # 2)] pre
       /\ forall v : Q,
            with_score v [("B", 2 # 2); ("A", 1 # 2); ("C", 1 # 2)] = with_score v pre.
Proof.
  assert (H1 : temporal_degree_centrality scenario None (Some [(0, 3)]) true
               = Ok [("B", 2 # 2); ("A", 1 # 2); ("C", 1 # 2)]).
  { reflexivity. }
  exact (conj H1 (result_sorted_stable scenario None (Some [(0, 3)]) true _ H1)).
Defined.

Lemma restriction_never_increases_witness :
  @restricts_by_filtering ListGraph _
  /\ raw_counts scenario None (Some [(0, 3)]) = Ok [("A", 1); ("B", 2); ("C", 1)]
  /\ raw_counts scenario None None = Ok [("A", 2); ("B", 2); ("C", 2)]
  /\ dict_get [("A", 1); ("B", 2); ("C", 1)] "A" = Some 1
  /\ dict_get [("A", 2); ("B", 2); ("C", 2)] "A" = Some 2
  /\ 1 <= 2.
Proof.
  assert (H1 : raw_counts scenario None (Some [(0, 3)]) = Ok [("A", 1); ("B", 2); ("C", 1)]).
  { reflexivity. }
  assert (H2 : raw_counts scenario None None = Ok [("A", 2); ("B", 2); ("C", 2)]).
  { reflexivity. }
  assert (H3 : dict_get [("A", 1); ("B", 2); ("C", 1)] "A" = Some 1).
  { reflexivity. }
  assert (H4 : dict_get [("A", 2); ("B", 2); ("C", 2)] "A" = Some 2).
  { reflexivity. }
  exact (conj ListGraph_restricts_by_filtering (conj H1 (conj H2 (conj H3 (conj H4
           (restriction_never_increases scenario None (Some [(0, 3)]) "A" _ _ 1 2
              ListGraph_restricts_by_filtering H1 H2 H3 H4)))))).
Defined.

Lemma normalized_scores_witness :
  temporal_degree_centrality scenario None (Some [(0, 3)]) true
  = Ok [("B", 2 # 2); ("A", 1 # 2); ("C", 1 # 2)]
  /\ exists d : dict Z,
       raw_counts scenario None (Some [(0, 3)]) = Ok d
       /\ forall k : string,
            dict_get [("B", 2 # 2); ("A", 1 # 2); ("C", 1 # 2)] k
            = option_map
                (fun c : Z =>
                   (inject_Z c
                    / inject_Z ((nodes_count (restricted scenario (Some [(0, 3)%Z])) - 1)
                                * (edges_end (restricted scenario (Some [(0, 3)%Z]))
                                   - edges_start (restricted scenario (Some [(0, 3)%Z])))))%Q)
                (dict_get d k).
Proof.
  assert (H1 : temporal_degree_centrality scenario None (Some [(0, 3)]) true
               = Ok [("B", 2 # 2); ("A", 1 # 2); ("C", 1 # 2)]).
  { reflexivity. }
  exact (conj H1 (normalized_scores scenario None (Some [(0, 3)]) _ H1)).
Defined.

(** ** Further properties: how a call ends *)

Lemma existsb_eqb_In (k : string) (labels : list string) :
  existsb (String.eqb k) labels = true <-> In k labels.
Proof.
  rewrite existsb_exists. split.
  - intros [x [Hin Hx]]. apply String.eqb_eq in Hx. now subst.
  - intros Hin. exists k. split; auto. apply String.eqb_refl.
Qed.

Lemma first_untracked_ext (l1 l2 : list string) (edges : list Edge) :
  (forall k, In k l1 <-> In k l2) ->
  first_untracked l1 edges = first_untracked l2 edges.
Proof.
  intros Hl.
  assert (Hb : forall k, existsb (String.eqb k) l1 = existsb (String.eqb k) l2).
  { intros k. apply eq_true_iff_eq. rewrite !existsb_eqb_In. apply Hl. }
  induction edges as [|e edges IH]; simpl; auto.
  now rewrite !Hb, IH.
Qed.

Lemma first_untracked_None (labels : list string) (edges : list Edge) :
  first_untracked labels edges = None <-> Forall (tracked labels) edges.
Proof.
  induction edges as [|e edges IH]; simpl.
  - split; auto.
  - destruct (existsb (String.eqb (label (node1 e))) labels) eqn:E1; simpl.
    + destruct (existsb (String.eqb (label (node2 e))) labels) eqn:E2; simpl.
      * apply existsb_eqb_In in E1, E2. rewrite IH. split.
        -- intros Hf. constructor; [split|]; auto.
        -- intros Hf. now inversion Hf.
      * split; [discriminate|]. intros Hf. inversion Hf as [|? ? [_ H2] _]; subst.
        apply existsb_eqb_In in H2. congruence.
    + split; [discriminate|]. intros Hf. inversion Hf as [|? ? [H1 _] _]; subst.
      apply existsb_eqb_In in H1. congruence.
Qed.

Lemma first_untracked_Some (labels : list string) (edges : list Edge) (k : string) :
  first_untracked labels edges = Some k -> ~ In k labels.
Proof.
  induction edges as [|e edges IH]; simpl; [discriminate|].
  destruct (existsb (String.eqb (label (node1 e))) labels) eqn:E1; simpl.
  - destruct (existsb (String.eqb (label (node2 e))) labels) eqn:E2; simpl; auto.
    intros [= <-] Hin. apply existsb_eqb_In in Hin. congruence.
  - intros [= <-] Hin. apply existsb_eqb_In in Hin. congruence.
Qed.

(** The loop ends at the first endpoint that is no key, and completes when
    there is none. *)
Lemma count_degrees_first_untracked (edges : list Edge) : forall d : dict Z,
  match first_untracked (dict_keys d) edges with
  | Some k => count_degrees edges d = Raise (KeyError k)
  | None => exists d', count_degrees edges d = Ok d'
  end.
Proof.
  induction edges as [|e edges IH]; intros d; simpl; [eauto|].
  destruct (existsb (String.eqb (label (node1 e))) (dict_keys d)) eqn:E1; simpl.
  2:{ rewrite increment_untracked; auto.
      intros Hin. apply existsb_eqb_In in Hin. congruence. }
  apply existsb_eqb_In, dict_get_In in E1. destruct E1 as [v1 Hv1].
  rewrite (increment_tracked _ _ _ Hv1). simpl.
  assert (Hk : dict_keys (dict_set d (label (node1 e)) (v1 + 1)) = dict_keys d).
  { apply dict_keys_set_present, dict_get_In. eauto. }
  destruct (existsb (String.eqb (label (node2 e))) (dict_keys d)) eqn:E2; simpl.
  2:{ rewrite increment_untracked; auto. rewrite Hk.
      intros Hin. apply existsb_eqb_In in Hin. congruence. }
  apply existsb_eqb_In in E2. rewrite <- Hk in E2.
  apply dict_get_In in E2. destruct E2 as [v2 Hv2].
  rewrite (increment_tracked _ _ _ Hv2). simpl.
  set (d2 := dict_set _ (label (node2 e)) _).
  assert (Hk2 : dict_keys d2 = dict_keys d).
  { unfold d2. rewrite dict_keys_set_present, Hk; auto. apply dict_get_In. eauto. }
  specialize (IH d2). now rewrite Hk2 in IH.
Qed.

Section Endings.
Context {G : Type} `{TemporalGraph G}.
Implicit Types (g : G) (labels : option (list string)) (intervals : option (list (Z * Z))).

Lemma raw_counts_ending g labels intervals :
  match first_untracked (working_labels (restricted g intervals) labels)
          (edges_aslist (restricted g intervals)) with
  | Some k => raw_counts g labels intervals = Raise (KeyError k)
  | None => exists d, raw_counts g labels intervals = Ok d
  end.
Proof.
  rewrite <- (first_untracked_ext _ _ _
                (initial_count_keys (working_labels (restricted g intervals) labels))).
  apply count_degrees_first_untracked.
Qed.

Lemma raw_counts_no_labels g labels intervals (d : dict Z) :
  raw_counts g labels intervals = Ok d ->
  (d = [] <-> working_labels (restricted g intervals) labels = []).
Proof.
  intros Hr. pose proof (raw_counts_keys _ _ _ _ Hr) as Hk. split.
  - intros ->. simpl in Hk.
    destruct (working_labels (restricted g intervals) labels) as [|l ls]; auto.
    assert (Hin : In l (dict_keys (initial_count (l :: ls)))).
    { apply initial_count_keys. now left. }
    rewrite <- Hk in Hin. destruct Hin.
  - intros Hw. rewrite Hw in Hk. destruct d; [auto | discriminate].
Qed.

(** With a zero factor the first division raises, when there is one. *)
Lemma centrality_zero_factor g labels intervals (d : dict Z) :
  raw_counts g labels intervals = Ok d ->
  normalization_factor (restricted g intervals) = 0 ->
  working_labels (restricted g intervals) labels <> [] ->
  temporal_degree_centrality g labels intervals true = Raise ZeroDivisionError.
Proof.
  intros Hr Hf Hw. rewrite centrality_stages, Hr. simpl. rewrite Hf.
  rewrite divide_items_zero; [reflexivity|]. unfold dict_items.
  intros Hd. apply Hw. now apply (raw_counts_no_labels _ _ _ _ Hr).
Qed.

(** Otherwise the call returns the sorted quotients. *)
Lemma centrality_value g labels intervals (d : dict Z) :
  raw_counts g labels intervals = Ok d ->
  normalization_factor (restricted g intervals) <> 0
  \/ working_labels (restricted g intervals) labels = [] ->
  temporal_degree_centrality g labels intervals true
  = Ok (sorted_reverse (quotients (normalization_factor (restricted g intervals)) d)).
Proof.
  intros Hr Hcase. rewrite centrality_stages, Hr. simpl.
  pose proof (raw_counts_NoDup _ _ _ _ Hr) as Hd.
  assert (Hq : divide_items (dict_items d) (normalization_factor (restricted g intervals)) []
               = Ok (quotients (normalization_factor (restricted g intervals)) d)).
  { destruct Hcase as [Hf|Hw].
    - rewrite divide_items_nonzero by assumption. f_equal.
      apply extend_distinct. simpl. now rewrite quotients_keys.
    - apply (raw_counts_no_labels _ _ _ _ Hr) in Hw. subst d. reflexivity. }
  rewrite Hq. simpl. f_equal. unfold dict_items. apply dict_of_items_distinct.
  apply sorted_reverse_keys. now rewrite quotients_keys.
Qed.

(** The four ways a call ends. *)
Lemma centrality_ending g labels intervals (normalize : bool) :
  match first_untracked (working_labels (restricted g intervals) labels)
          (edges_aslist (restricted g intervals)) with
  | Some k => temporal_degree_centrality g labels intervals normalize = Raise (KeyError k)
  | None =>
      if normalize then
        (normalization_factor (restricted g intervals) = 0
         /\ working_labels (restricted g intervals) labels <> []
         /\ temporal_degree_centrality g labels intervals true = Raise ZeroDivisionError)
        \/ ((normalization_factor (restricted g intervals) <> 0
             \/ working_labels (restricted g intervals) labels = [])
            /\ exists r, temporal_degree_centrality g labels intervals true = Ok r)
      else temporal_degree_centrality g labels intervals false
           = Raise (UnboundLocalError "temporal_degree")
  end.
Proof.
  pose proof (raw_counts_ending g labels intervals) as Hraw.
  destruct (first_untracked _ _) as [k|].
  - now apply raw_counts_raise.
  - destruct Hraw as [d Hr]. destruct normalize.
    + destruct (Z.eq_dec (normalization_factor (restricted g intervals)) 0) as [Hf|Hf].
      * destruct (working_labels (restricted g intervals) labels) as [|l ls] eqn:Hw.
        -- right. split; auto. eexists. apply (centrality_value _ _ _ _ Hr).
           right. exact Hw.
        -- left. split; auto. split; [discriminate|].
           apply (centrality_zero_factor _ _ _ _ Hr Hf). rewrite Hw. discriminate.
      * right. split; auto. eexists. apply (centrality_value _ _ _ _ Hr). now left.
    + exact (unnormalized_raises _ _ _ _ Hr).
Qed.

(** X1: a call returns exactly when [normalize] is true, every edge
    endpoint of the (possibly restricted) graph is in the working label set,
    and the normalization factor is not zero or there is no label at all. *)
Theorem returns_iff g labels intervals (normalize : bool) :
  (exists r, temporal_degree_centrality g labels intervals normalize = Ok r)
  <-> normalize = true
      /\ Forall (tracked (working_labels (restricted g intervals) labels))
           (edges_aslist (restricted g intervals))
      /\ (normalization_factor (restricted g intervals) <> 0
          \/ working_labels (restricted g intervals) labels = []).
Proof.
  pose proof (centrality_ending g labels intervals normalize) as He.
  rewrite <- first_untracked_None.
  destruct (first_untracked _ _) as [k|].
  - split; [intros [r Hr]; congruence | intros [_ [Hn _]]; discriminate].
  - destruct normalize.
    + destruct He as [[Hf [Hw He]]|[Hcase He]].
      * split; [intros [r Hr]; congruence | intros [_ [_ [Hf'|Hw']]]; contradiction].
      * split; auto.
    + split; [intros [r Hr]; congruence | intros [Hn _]; discriminate].
Qed.

(** X2: a call raises [KeyError] exactly when some edge endpoint is not in
    the working label set, and the key of the error is the first such
    endpoint in the order of the edge list, [node1] before [node2]; this
    does not depend on [normalize]. *)
Theorem key_error_iff g labels intervals (normalize : bool) (k : string) :
  temporal_degree_centrality g labels intervals normalize = Raise (KeyError k)
  <-> first_untracked (working_labels (restricted g intervals) labels)
        (edges_aslist (restricted g intervals)) = Some k.
Proof.
  pose proof (centrality_ending g labels intervals normalize) as He.
  destruct (first_untracked _ _) as [k'|].
  - rewrite He. split; [intros [= ->] | intros [= ->]]; reflexivity.
  - destruct normalize.
    + destruct He as [[_ [_ He]]|[_ [r He]]]; rewrite He; split; discriminate.
    + rewrite He. split; discriminate.
Qed.

(** X3: a call raises [ZeroDivisionError] exactly when [normalize] is true,
    every edge endpoint is in the working label set, the normalization
    factor is zero and the working label set is not empty. *)
Theorem zero_division_iff g labels intervals (normalize : bool) :
  temporal_degree_centrality g labels intervals normalize = Raise ZeroDivisionError
  <-> normalize = true
      /\ Forall (tracked (working_labels (restricted g intervals) labels))
           (edges_aslist (restricted g intervals))
      /\ normalization_factor (restricted g intervals) = 0
      /\ working_labels (restricted g intervals) labels <> [].
Proof.
  pose proof (centrality_ending g labels intervals normalize) as He.
  rewrite <- first_untracked_None.
  destruct (first_untracked _ _) as [k|].
  - rewrite He. split; [discriminate | intros [_ [Hn _]]; discriminate].
  - destruct normalize.
    + destruct He as [[Hf [Hw He]]|[Hcase [r He]]].
      * split; auto.
      * rewrite He. split; [discriminate|].
        intros [_ [_ [Hf Hw]]]. destruct Hcase; contradiction.
    + rewrite He. split; [discriminate | intros [Hn _]; discriminate].
Qed.

(** X4: a call raises [UnboundLocalError] exactly when [normalize] is false
    and every edge endpoint is in the working label set; the unbound name is
    [temporal_degree].  With [normalize] false no call returns. *)
Theorem unbound_local_iff g labels intervals (normalize : bool) (name : string) :
  temporal_degree_centrality g labels intervals normalize = Raise (UnboundLocalError name)
  <-> normalize = false
      /\ name = "temporal_degree"
      /\ Forall (tracked (working_labels (restricted g intervals) labels))
           (edges_aslist (restricted g intervals)).
Proof.
  pose proof (centrality_ending g labels intervals normalize) as He.
  rewrite <- first_untracked_None.
  destruct (first_untracked _ _) as [k|].
  - rewrite He. split; [discriminate | intros [_ [_ Hn]]; discriminate].
  - destruct normalize.
    + destruct He as [[_ [_ He]]|[_ [r He]]]; rewrite He;
        (split; [discriminate | intros [Hn _]; discriminate]).
    + rewrite He. split.
      * intros [= <-]. auto.
      * intros [_ [-> _]]. reflexivity.
Qed.
End Endings.

(** ** Further properties: counts and scores *)

Lemma dict_get_item {V : Type} (d : dict V) (k : string) (v : V) :
  dict_get d k = Some v -> In (k, v) d.
Proof.
  induction d as [|[k' v'] d IH]; simpl; [discriminate|].
  destruct (String.eqb k' k) eqn:E; auto.
  apply String.eqb_eq in E. intros [= ->]. subst. now left.
Qed.

(** Two dictionaries with the same keys in the same order and the same
    value under every key are the same dictionary. *)
Lemma dict_ext {V : Type} : forall d1 d2 : dict V,
  dict_keys d1 = dict_keys d2 -> NoDup (dict_keys d1) ->
  (forall k, In k (dict_keys d1) -> dict_get d1 k = dict_get d2 k) ->
  d1 = d2.
Proof.
  induction d1 as [|[k v] d1 IH]; intros [|[k' v'] d2] Hk Hd Hg; try discriminate; auto.
  simpl in Hk. injection Hk as <- Hk. inversion Hd as [|? ? Hnin Hd']; subst.
  pose proof (Hg k (or_introl eq_refl)) as Hv. simpl in Hv.
  rewrite String.eqb_refl in Hv. injection Hv as <-.
  f_equal. apply IH; auto.
  intros k0 Hin. specialize (Hg k0 (or_intror Hin)). simpl in Hg.
  destruct (String.eqb k k0) eqn:E; auto.
  apply String.eqb_eq in E. subst. contradiction.
Qed.

Lemma occurrences_perm (k : string) (es es' : list Edge) :
  Permutation es es' -> occurrences k es = occurrences k es'.
Proof. induction 1; simpl; lia. Qed.

Lemma Qdiv_nonneg (a f : Z) :
  0 < f -> 0 <= a -> (0 <= inject_Z a / inject_Z f)%Q.
Proof.
  intros Hf Ha. destruct f as [|p|p]; try lia.
  unfold Qle, Qdiv, Qmult, Qinv, inject_Z. simpl. nia.
Qed.

Section Scores.
Context {G : Type} `{TemporalGraph G}.
Implicit Types (g : G) (labels : option (list string)) (intervals : option (list (Z * Z))).

(** An item of a returned mapping: its label is a working label and its
    score is the label's number of edge endpoints over the factor. *)
Lemma returned_item g labels intervals (normalize : bool) (r : dict Q) (k : string) (s : Q) :
  temporal_degree_centrality g labels intervals normalize = Ok r ->
  In (k, s) r ->
  In k (working_labels (restricted g intervals) labels)
  /\ s = (inject_Z (occurrences k (edges_aslist (restricted g intervals)))
          / inject_Z (normalization_factor (restricted g intervals)))%Q.
Proof.
  intros Hc Hin. destruct (centrality_returns _ _ _ _ _ Hc) as [d [_ [Hr [_ [_ ->]]]]].
  apply (Permutation_in _ (sorted_reverse_perm _)) in Hin.
  unfold quotients in Hin. apply in_map_iff in Hin.
  destruct Hin as [[k' c] [[= -> <-] Hin]]. simpl.
  apply (dict_get_Some_In _ _ _ (raw_counts_NoDup _ _ _ _ Hr)) in Hin.
  split.
  - apply initial_count_keys. rewrite <- (raw_counts_keys _ _ _ _ Hr).
    apply dict_get_In. eauto.
  - now rewrite (raw_counts_get _ _ _ _ _ _ Hr Hin).
Qed.

Lemma returned_keys g labels intervals (normalize : bool) (r : dict Q) :
  temporal_degree_centrality g labels intervals normalize = Ok r ->
  Permutation (dict_keys r)
    (dict_keys (initial_count (working_labels (restricted g intervals) labels))).
Proof.
  intros Hc. destruct (centrality_returns _ _ _ _ _ Hc) as [d [_ [Hr [_ [_ ->]]]]].
  rewrite <- (raw_counts_keys _ _ _ _ Hr).
  unfold dict_keys at 2. rewrite <- (quotients_keys (normalization_factor (restricted g intervals)) d).
  apply Permutation_map, sorted_reverse_perm.
Qed.

(** X5: when the counting pass completes, the raw count of a working label
    is the number of times the label is an endpoint of an edge of the
    (possibly restricted) graph (a self-loop counts twice, a repeated edge
    every time), and no other label has a count. *)
Theorem raw_count_is_degree g labels intervals (d : dict Z) :
  raw_counts g labels intervals = Ok d ->
  (forall k, In k (working_labels (restricted g intervals) labels) ->
     dict_get d k = Some (occurrences k (edges_aslist (restricted g intervals))))
  /\ (forall k, ~ In k (working_labels (restricted g intervals) labels) ->
        dict_get d k = None).
Proof.
  intros Hr. split; intros k Hk.
  - pose proof (initial_count_get _ _ Hk) as H0.
    now rewrite (count_degrees_get _ _ _ _ _ Hr H0).
  - apply dict_get_None. rewrite (raw_counts_keys _ _ _ _ Hr).
    now rewrite initial_count_keys.
Qed.

(** X6: a returned mapping has exactly the working labels as keys, each of
    them once, however often the caller listed it. *)
Theorem result_keys g labels intervals (normalize : bool) (r : dict Q) :
  temporal_degree_centrality g labels intervals normalize = Ok r ->
  NoDup (dict_keys r)
  /\ forall k, In k (dict_keys r) <-> In k (working_labels (restricted g intervals) labels).
Proof.
  intros Hc. pose proof (returned_keys _ _ _ _ _ Hc) as Hp. split.
  - eapply Permutation_NoDup; [symmetry; exact Hp | apply initial_count_NoDup].
  - intros k.
    rewrite <- (initial_count_keys (working_labels (restricted g intervals) labels) k).
    split; apply Permutation_in; auto. now symmetry.
Qed.
End Scores.

Lemma count_degrees_perm (labels : list string) (es es' : list Edge) (d : dict Z) :
  Permutation es es' ->
  count_degrees es (initial_count labels) = Ok d ->
  count_degrees es' (initial_count labels) = Ok d.
Proof.
  intros Hp Hc.
  pose proof (count_degrees_inv _ _ _ Hc) as Ht.
  assert (Ht' : Forall (tracked (dict_keys (initial_count labels))) es').
  { eapply Permutation_Forall; eassumption. }
  destruct (count_degrees_tracked _ _ Ht') as [d' Hc'].
  rewrite Hc'. f_equal. apply dict_ext.
  - now rewrite (count_degrees_keys _ _ _ Hc), (count_degrees_keys _ _ _ Hc').
  - rewrite (count_degrees_keys _ _ _ Hc'). apply initial_count_NoDup.
  - intros k Hin. rewrite (count_degrees_keys _ _ _ Hc') in Hin.
    apply (proj1 (initial_count_keys _ _)) in Hin. apply initial_count_get in Hin.
    rewrite (count_degrees_get _ _ _ _ _ Hc Hin), (count_degrees_get _ _ _ _ _ Hc' Hin).
    now rewrite (occurrences_perm k _ _ Hp).
Qed.

Section Ranking.
Context {G : Type} `{TemporalGraph G}.
Implicit Types (g : G) (labels : option (list string)) (intervals : option (list (Z * Z))).

(** X7: the result does not depend on the order of the edge list: two
    graphs whose (possibly restricted) edge lists are permutations of each
    other, with the same working labels and the same normalization factor,
    give the same returned mapping. *)
Theorem edge_order_irrelevant g1 g2 labels intervals (normalize : bool) (r : dict Q) :
  Permutation (edges_aslist (restricted g1 intervals)) (edges_aslist (restricted g2 intervals)) ->
  working_labels (restricted g1 intervals) labels
  = working_labels (restricted g2 intervals) labels ->
  normalization_factor (restricted g1 intervals)
  = normalization_factor (restricted g2 intervals) ->
  temporal_degree_centrality g1 labels intervals normalize = Ok r ->
  temporal_degree_centrality g2 labels intervals normalize = Ok r.
Proof.
  intros Hp Hw Hf Hc.
  destruct (centrality_returns _ _ _ _ _ Hc) as [d [-> [Hr [Hcase [_ ->]]]]].
  assert (Hr2 : raw_counts g2 labels intervals = Ok d).
  { unfold raw_counts in *. rewrite <- Hw. exact (count_degrees_perm _ _ _ _ Hp Hr). }
  rewrite Hf. apply (centrality_value _ _ _ _ Hr2).
  destruct Hcase as [Hd|Hn].
  - right. now apply (raw_counts_no_labels _ _ _ _ Hr2).
  - left. now rewrite <- Hf.
Qed.

(** X9: a requested label that is an endpoint of no edge of the (possibly
    restricted) graph, a label unknown to the graph for one, is no error:
    it is in the returned mapping with score zero. *)
Theorem isolated_label_scores_zero g labels intervals (normalize : bool) (r : dict Q)
    (k : string) :
  temporal_degree_centrality g labels intervals normalize = Ok r ->
  In k (working_labels (restricted g intervals) labels) ->
  occurrences k (edges_aslist (restricted g intervals)) = 0 ->
  exists s : Q, dict_get r k = Some s /\ (s == 0)%Q.
Proof.
  intros Hc Hk H0.
  assert (Hin : In k (dict_keys r)).
  { apply (Permutation_in _ (Permutation_sym (returned_keys _ _ _ _ _ Hc))).
    now apply initial_count_keys. }
  apply dict_get_In in Hin. destruct Hin as [s Hs]. exists s. split; auto.
  destruct (returned_item _ _ _ _ _ _ _ Hc (dict_get_item _ _ _ Hs)) as [_ ->].
  rewrite H0. unfold Qdiv. simpl. ring.
Qed.

(** X10: with a positive normalization factor no returned score is
    negative. *)
Theorem scores_nonnegative g labels intervals (normalize : bool) (r : dict Q) :
  0 < normalization_factor (restricted g intervals) ->
  temporal_degree_centrality g labels intervals normalize = Ok r ->
  Forall (fun item => (0 <= snd item)%Q) r.
Proof.
  intros Hf Hc. apply Forall_forall. intros [k s] Hin.
  destruct (returned_item _ _ _ _ _ _ _ Hc Hin) as [_ ->]. simpl.
  apply Qdiv_nonneg; auto. apply occurrences_nonneg.
Qed.

(** X12: the score of a label does not depend on which other labels the
    caller asked for: two returning calls on the same graph and intervals
    give a label they both score the same score. *)
Theorem score_independent_of_labels g labels1 labels2 intervals (n1 n2 : bool)
    (r1 r2 : dict Q) (k : string) (s1 s2 : Q) :
  temporal_degree_centrality g labels1 intervals n1 = Ok r1 ->
  temporal_degree_centrality g labels2 intervals n2 = Ok r2 ->
  dict_get r1 k = Some s1 ->
  dict_get r2 k = Some s2 ->
  s1 = s2.
Proof.
  intros Hc1 Hc2 Hs1 Hs2.
  destruct (returned_item _ _ _ _ _ _ _ Hc1 (dict_get_item _ _ _ Hs1)) as [_ ->].
  destruct (returned_item _ _ _ _ _ _ _ Hc2 (dict_get_item _ _ _ Hs2)) as [_ ->].
  reflexivity.
Qed.
End Ranking.

(** ** Further properties: the order of the result *)

Lemma initial_count_distinct (labels : list string) :
  NoDup labels -> dict_keys (initial_count labels) = labels.
Proof.
  intros Hd. unfold initial_count. rewrite dict_of_items_distinct.
  - unfold dict_keys. rewrite map_map. simpl. apply map_id.
  - rewrite map_map. simpl. now rewrite map_id.
Qed.

Lemma with_score_keys (v : Q) (d : dict Q) :
  NoDup (dict_keys d) ->
  dict_keys (with_score v d)
  = filter (fun k => match dict_get d k with
                     | Some s => Qeq_bool s v
                     | None => false
                     end) (dict_keys d).
Proof.
  induction d as [|[k s] d IH]; simpl; intros Hd; auto.
  inversion Hd as [|? ? Hnin Hd']; subst.
  rewrite String.eqb_refl.
  assert (Htail : filter (fun k0 => match (if String.eqb k k0 then Some s else dict_get d k0) with
                                    | Some s0 => Qeq_bool s0 v
                                    | None => false
                                    end) (dict_keys d)
                  = dict_keys (with_score v d)).
  { rewrite (IH Hd'). apply filter_ext_in. intros k0 Hin.
    destruct (String.eqb k k0) eqn:E; auto.
    apply String.eqb_eq in E. subst. contradiction. }
  fold (dict_keys d). rewrite Htail.
  destruct (Qeq_bool s v); reflexivity.
Qed.

(** Two non-increasing arrangements of the same items that agree on the
    order of the items of every score are the same list. *)
Lemma descending_stable_unique : forall l1 l2 : list (string * Q),
  descending l1 -> descending l2 -> Permutation l1 l2 ->
  (forall v, with_score v l1 = with_score v l2) ->
  l1 = l2.
Proof.
  unfold descending.
  induction l1 as [|x l1 IH]; intros l2 Hs1 Hs2 Hp Hw.
  - now apply Permutation_nil in Hp.
  - destruct l2 as [|y l2].
    { apply Permutation_sym, Permutation_nil in Hp. discriminate. }
    apply StronglySorted_inv in Hs1. destruct Hs1 as [Hs1 Hx].
    apply StronglySorted_inv in Hs2. destruct Hs2 as [Hs2 Hy].
    assert (Hxy : (snd x <= snd y)%Q).
    { assert (Hin : In x (y :: l2)) by (eapply Permutation_in; [exact Hp | now left]).
      destruct Hin as [->|Hin]; [apply Qle_refl|].
      exact (proj1 (Forall_forall _ _) Hy x Hin). }
    assert (Hyx : (snd y <= snd x)%Q).
    { assert (Hin : In y (x :: l1)).
      { eapply Permutation_in; [exact (Permutation_sym Hp) | now left]. }
      destruct Hin as [->|Hin]; [apply Qle_refl|].
      exact (proj1 (Forall_forall _ _) Hx y Hin). }
    assert (Heq : Qeq_bool (snd y) (snd x) = true).
    { apply Qeq_bool_iff. now apply Qle_antisym. }
    pose proof (Hw (snd x)) as Hhead. simpl in Hhead.
    rewrite Heq in Hhead.
    assert (Hrefl : Qeq_bool (snd x) (snd x) = true).
    { apply Qeq_bool_iff. reflexivity. }
    rewrite Hrefl in Hhead. injection Hhead as -> _.
    f_equal. apply IH; auto.
    + now apply Permutation_cons_inv in Hp.
    + intros v. specialize (Hw v). simpl in Hw.
      destruct (Qeq_bool (snd y) v); [now injection Hw | exact Hw].
Qed.

Section Order.
Context {G : Type} `{TemporalGraph G}.
Implicit Types (g : G) (labels : option (list string)) (intervals : option (list (Z * Z))).

(** X13: when the working labels are pairwise distinct, the labels that
    share a score appear in the returned mapping in the order of the working
    label list. *)
Theorem ties_follow_label_order g labels intervals (normalize : bool) (r : dict Q) (v : Q) :
  NoDup (working_labels (restricted g intervals) labels) ->
  temporal_degree_centrality g labels intervals normalize = Ok r ->
  dict_keys (with_score v r)
  = filter (fun k => match dict_get r k with
                     | Some s => Qeq_bool s v
                     | None => false
                     end) (working_labels (restricted g intervals) labels).
Proof.
  intros Hd Hc. destruct (centrality_returns _ _ _ _ _ Hc) as [d [_ [Hr [_ [_ ->]]]]].
  set (pre := quotients (normalization_factor (restricted g intervals)) d).
  assert (Hkeys : dict_keys pre = working_labels (restricted g intervals) labels).
  { unfold pre, dict_keys. rewrite quotients_keys.
    fold (dict_keys d). rewrite (raw_counts_keys _ _ _ _ Hr).
    now apply initial_count_distinct. }
  assert (Hpre : NoDup (dict_keys pre)) by now rewrite Hkeys.
  rewrite sorted_reverse_with_score, (with_score_keys v pre Hpre), Hkeys.
  apply filter_ext. intros k.
  now rewrite (dict_get_perm pre (sorted_reverse pre) k Hpre
                 (Permutation_sym (sorted_reverse_perm pre))).
Qed.

(** X14: the order of a returned mapping is the only one possible: a list
    with the items of [temporal_degree], in non-increasing order of score
    and with the items of every score in their order in [temporal_degree],
    is the returned list. *)
Theorem sorted_order_unique g labels intervals (normalize : bool) (r pre r' : dict Q) :
  temporal_degree_centrality g labels intervals normalize = Ok r ->
  normalized_counts g labels intervals = Ok pre ->
  Permutation r' pre ->
  descending r' ->
  (forall v, with_score v r' = with_score v pre) ->
  r' = r.
Proof.
  intros Hc Hpre Hp Hs Hw.
  destruct (centrality_returns _ _ _ _ _ Hc) as [d [_ [_ [_ [Hpre' ->]]]]].
  rewrite Hpre in Hpre'. injection Hpre' as ->.
  apply descending_stable_unique; auto.
  - apply sorted_reverse_descending.
  - rewrite Hp. symmetry. apply sorted_reverse_perm.
  - intros v. now rewrite Hw, sorted_reverse_with_score.
Qed.
End Order.

(** ** The further properties on the scenario *)

Lemma raw_count_is_degree_witness :
  raw_counts scenario None (Some [(0, 3)]) = Ok [("A", 1); ("B", 2); ("C", 1)]
  /\ (forall k, In k (working_labels (restricted scenario (Some [(0, 3)])) None) ->
        dict_get [("A", 1); ("B", 2); ("C", 1)] k
        = Some (occurrences k (edges_aslist (restricted scenario (Some [(0, 3)])))))
  /\ (forall k, ~ In k (working_labels (restricted scenario (Some [(0, 3)])) None) ->
        dict_get [("A", 1); ("B", 2); ("C", 1)] k = None).
Proof.
  assert (H1 : raw_counts scenario None (Some [(0, 3)]) = Ok [("A", 1); ("B", 2); ("C", 1)]).
  { reflexivity. }
  exact (conj H1 (raw_count_is_degree scenario None (Some [(0, 3)]) _ H1)).
Defined.

Lemma result_keys_witness :
  temporal_degree_centrality scenario (Some ["A"; "B"; "C"; "A"]) (Some [(0, 3)]) true
  = Ok [("B", 2 # 2); ("A", 1 # 2); ("C", 1 # 2)]
  /\ NoDup (dict_keys [("B", 2 # 2); ("A", 1 # 2); ("C", 1 # 2)])
  /\ forall k, In k (dict_keys [("B", 2 # 2); ("A", 1 # 2); ("C", 1 # 2)])
               <-> In k (working_labels (restricted scenario (Some [(0, 3)]))
                           (Some ["A"; "B"; "C"; "A"])).
Proof.
  assert (H1 : temporal_degree_centrality scenario (Some ["A"; "B"; "C"; "A"])
                 (Some [(0, 3)]) true
               = Ok [("B", 2 # 2); ("A", 1 # 2); ("C", 1 # 2)]).
  { reflexivity. }
  exact (conj H1 (result_keys scenario (Some ["A"; "B"; "C"; "A"]) (Some [(0, 3)]) true _ H1)).
Defined.

Lemma edge_order_irrelevant_witness :
  Permutation (edges_aslist (restricted scenario (Some [(0, 3)])))
    (edges_aslist (restricted scenario_reversed (Some [(0, 3)])))
  /\ working_labels (restricted scenario (Some [(0, 3)])) None
     = working_labels (restricted scenario_reversed (Some [(0, 3)])) None
  /\ normalization_factor (restricted scenario (Some [(0, 3)]))
     = normalization_factor (restricted scenario_reversed (Some [(0, 3)]))
  /\ temporal_degree_centrality scenario None (Some [(0, 3)]) true
     = Ok [("B", 2 # 2); ("A", 1 # 2); ("C", 1 # 2)]
  /\ temporal_degree_centrality scenario_reversed None (Some [(0, 3)]) true
     = Ok [("B", 2 # 2); ("A", 1 # 2); ("C", 1 # 2)].
Proof.
  assert (H1 : Permutation (edges_aslist (restricted scenario (Some [(0, 3)])))
                 (edges_aslist (restricted scenario_reversed (Some [(0, 3)])))).
  { simpl. apply perm_swap. }
  assert (H2 : working_labels (restricted scenario (Some [(0, 3)])) None
               = working_labels (restricted scenario_reversed (Some [(0, 3)])) None).
  { reflexivity. }
  assert (H3 : normalization_factor (restricted scenario (Some [(0, 3)]))
               = normalization_factor (restricted scenario_reversed (Some [(0, 3)]))).
  { reflexivity. }
  assert (H4 : temporal_degree_centrality scenario None (Some [(0, 3)]) true
               = Ok [("B", 2 # 2); ("A", 1 # 2); ("C", 1 # 2)]).
  { reflexivity. }
  exact (conj H1 (conj H2 (conj H3 (conj H4
           (edge_order_irrelevant scenario scenario_reversed None (Some [(0, 3)]) true _
              H1 H2 H3 H4))))).
Defined.

Lemma isolated_label_scores_zero_witness :
  temporal_degree_centrality scenario (Some ["A"; "B"; "C"; "Z"]) (Some [(0, 3)]) true
  = Ok [("B", 2 # 2); ("A", 1 # 2); ("C", 1 # 2); ("Z", 0 # 2)]
  /\ In "Z" (working_labels (restricted scenario (Some [(0, 3)])) (Some ["A"; "B"; "C"; "Z"]))
  /\ occurrences "Z" (edges_aslist (restricted scenario (Some [(0, 3)]))) = 0
  /\ exists s : Q,
       dict_get [("B", 2 # 2); ("A", 1 # 2); ("C", 1 # 2); ("Z", 0 # 2)] "Z" = Some s
       /\ (s == 0)%Q.
Proof.
  assert (H1 : temporal_degree_centrality scenario (Some ["A"; "B"; "C"; "Z"])
                 (Some [(0, 3)]) true
               = Ok [("B", 2 # 2); ("A", 1 # 2); ("C", 1 # 2); ("Z", 0 # 2)]).
  { reflexivity. }
  assert (H2 : In "Z" (working_labels (restricted scenario (Some [(0, 3)]))
                         (Some ["A"; "B"; "C"; "Z"]))).
  { simpl. tauto. }
  assert (H3 : occurrences "Z" (edges_aslist (restricted scenario (Some [(0, 3)]))) = 0).
  { reflexivity. }
  exact (conj H1 (conj H2 (conj H3
           (isolated_label_scores_zero scenario (Some ["A"; "B"; "C"; "Z"]) (Some [(0, 3)])
              true _ "Z" H1 H2 H3)))).
Defined.

Lemma scores_nonnegative_witness :
  0 < normalization_factor (restricted scenario (Some [(0, 3)]))
  /\ temporal_degree_centrality scenario None (Some [(0, 3)]) true
     = Ok [("B", 2 # 2); ("A", 1 # 2); ("C", 1 # 2)]
  /\ Forall (fun item => (0 <= snd item)%Q) [("B", 2 # 2); ("A", 1 # 2); ("C", 1 # 2)].
Proof.
  assert (H1 : 0 < normalization_factor (restricted scenario (Some [(0, 3)]))).
  { vm_compute. reflexivity. }
  assert (H2 : temporal_degree_centrality scenario None (Some [(0, 3)]) true
               = Ok [("B", 2 # 2); ("A", 1 # 2); ("C", 1 # 2)]).
  { reflexivity. }
  exact (conj H1 (conj H2 (scores_nonnegative scenario None (Some [(0, 3)]) true _ H1 H2))).
Defined.

Lemma score_independent_of_labels_witness :
  temporal_degree_centrality scenario None (Some [(0, 3)]) true
  = Ok [("B", 2 # 2); ("A", 1 # 2); ("C", 1 # 2)]
  /\ temporal_degree_centrality scenario (Some ["A"; "B"; "C"; "Z"]) (Some [(0, 3)]) true
     = Ok [("B", 2 # 2); ("A", 1 # 2); ("C", 1 # 2); ("Z", 0 # 2)]
  /\ dict_get [("B", 2 # 2); ("A", 1 # 2); ("C", 1 # 2)] "A" = Some (1 # 2)
  /\ dict_get [("B", 2 # 2); ("A", 1 # 2); ("C", 1 # 2); ("Z", 0 # 2)] "A" = Some (1 # 2)
  /\ 1 # 2 = 1 # 2.
Proof.
  assert (H1 : temporal_degree_centrality scenario None (Some [(0, 3)]) true
               = Ok [("B", 2 # 2); ("A", 1 # 2); ("C", 1 # 2)]).
  { reflexivity. }
  assert (H2 : temporal_degree_centrality scenario (Some ["A"; "B"; "C"; "Z"])
                 (Some [(0, 3)]) true
               = Ok [("B", 2 # 2); ("A", 1 # 2); ("C", 1 # 2); ("Z", 0 # 2)]).
  { reflexivity. }
  assert (H3 : dict_get [("B", 2 # 2); ("A", 1 # 2); ("C", 1 # 2)] "A" = Some (1 # 2)).
  { reflexivity. }
  assert (H4 : dict_get [("B", 2 # 2); ("A", 1 # 2); ("C", 1 # 2); ("Z", 0 # 2)] "A"
               = Some (1 # 2)).
  { reflexivity. }
  exact (conj H1 (conj H2 (conj H3 (conj H4
           (score_independent_of_labels scenario None (Some ["A"; "B"; "C"; "Z"])
              (Some [(0, 3)]) true true _ _ "A" (1 # 2) (1 # 2) H1 H2 H3 H4))))).
Defined.

Lemma ties_follow_label_order_witness :
  NoDup (working_labels (restricted scenario (Some [(0, 3)])) None)
  /\ temporal_degree_centrality scenario None (Some [(0, 3)]) true
     = Ok [("B", 2 # 2); ("A", 1 # 2); ("C", 1 # 2)]
  /\ dict_keys (with_score (1 # 2) [("B", 2 # 2); ("A", 1 # 2); ("C", 1 # 2)])
     = filter (fun k => match dict_get [("B", 2 # 2); ("A", 1 # 2); ("C", 1 # 2)] k with
                        | Some s => Qeq_bool s (1 # 2)
                        | None => false
                        end) (working_labels (restricted scenario (Some [(0, 3)%Z])) None).
Proof.
  assert (H1 : NoDup (working_labels (restricted scenario (Some [(0, 3)])) None)).
  { simpl. repeat constructor; simpl; intuition discriminate. }
  assert (H2 : temporal_degree_centrality scenario None (Some [(0, 3)]) true
               = Ok [("B", 2 # 2); ("A", 1 # 2); ("C", 1 # 2)]).
  { reflexivity. }
  exact (conj H1 (conj H2
           (ties_follow_label_order scenario None (Some [(0, 3)]) true _ (1 # 2) H1 H2))).
Defined.

Lemma sorted_order_unique_witness :
  temporal_degree_centrality scenario None (Some [(0, 3)]) true
  = Ok [("B", 2 # 2); ("A", 1 # 2); ("C", 1 # 2)]
  /\ normalized_counts scenario None (Some [(0, 3)])
     = Ok [("A", 1 # 2); ("B", 2 # 2); ("C", 1 # 2)]
  /\ Permutation [("B", 2 # 2); ("A", 1 # 2); ("C", 1 # 2)]
       [("A", 1 # 2); ("B", 2 # 2); ("C", 1 # 2)]
  /\ descending [("B", 2 # 2); ("A", 1 # 2); ("C", 1 # 2)]
  /\ (forall v, with_score v [("B", 2 # 2); ("A", 1 # 2); ("C", 1 # 2)]
                = with_score v [("A", 1 # 2); ("B", 2 # 2); ("C", 1 # 2)])
  /\ [("B", 2 # 2); ("A", 1 # 2); ("C", 1 # 2)]
     = [("B", 2 # 2); ("A", 1 # 2); ("C", 1 # 2)].
Proof.
  assert (H1 : temporal_degree_centrality scenario None (Some [(0, 3)]) true
               = Ok [("B", 2 # 2); ("A", 1 # 2); ("C", 1 # 2)]).
  { reflexivity. }
  assert (H2 : normalized_counts scenario None (Some [(0, 3)])
               = Ok [("A", 1 # 2); ("B", 2 # 2); ("C", 1 # 2)]).
  { reflexivity. }
  assert (H3 : Permutation [("B", 2 # 2); ("A", 1 # 2); ("C", 1 # 2)]
                 [("A", 1 # 2); ("B", 2 # 2); ("C", 1 # 2)]).
  { apply perm_swap. }
  assert (H4 : descending [("B", 2 # 2); ("A", 1 # 2); ("C", 1 # 2)]).
  { exact (sorted_reverse_descending [("A", 1 # 2); ("B", 2 # 2); ("C", 1 # 2)]). }
  assert (H5 : forall v, with_score v [("B", 2 # 2); ("A", 1 # 2); ("C", 1 # 2)]
                         = with_score v [("A", 1 # 2); ("B", 2 # 2); ("C", 1 # 2)]).
  { intros v.
    exact (sorted_reverse_with_score v [("A", 1 # 2); ("B", 2 # 2); ("C", 1 # 2)]). }
  exact (conj H1 (conj H2 (conj H3 (conj H4 (conj H5
           (sorted_order_unique scenario None (Some [(0, 3)]) true _ _ _ H1 H2 H3 H4 H5)))))).
Defined.
